(** * Resource-lifetime tracker: Slot and Lifetime

    A shallow embedding of the slot layer (lt_slot.c), of the Lifetime
    container that is built on it, and of [create_game] (game.c), together
    with the properties of the specification that concern them.

    Pointers are machine addresses, modelled as [Z] with [NULL = 0]; a
    function pointer is an address as well.  The C code is effectful
    (heap, stdout, calls through function pointers, [assert]), so every
    function is a computation in a small state-and-error monad [M] over a
    [world] that holds the heap of slots, the heap of lifetimes, the
    memory of [Game] structures, the decisions of the allocator and the
    chronological trace of observable events. *)

From Stdlib Require Import ZArith List String Lia.
From stdpp Require Import base option list gmap strings.

Local Open Scope Z_scope.

(** ** Data *)

Definition NULL : Z := 0.

(** [struct lt_slot_t { void *resource; lt_destroy_t resource_destroy; }] *)
Record lt_slot_t : Type := Lt_slot {
  resource : Z;
  resource_destroy : Z
}.

(** External constructors called by [create_game]. *)
Inductive ctor : Type :=
  | Nth_alloc
  | Create_broadcast
  | Create_sprite_font_from_file
  | Create_level_picker
  | Create_sound_samples
  | Create_camera
  | Create_console
  | Texture_from_bmp
  | Create_level_from_file.

(** Observable events, in the order in which they happen. *)
Inductive event : Type :=
  | EvRelease (f r : Z)                (* the call [f(r)] of a release function *)
  | EvFree (p : Z)                     (* [free(p)] of bookkeeping storage *)
  | EvPrint (s : string)               (* [printf(s)] *)
  | EvConstruct (c : ctor) (args : list Z). (* a call of an external constructor *)

(** [typedef enum Game_state] *)
Inductive Game_state : Type :=
  | GAME_STATE_RUNNING
  | GAME_STATE_PAUSE
  | GAME_STATE_CONSOLE
  | GAME_STATE_LEVEL_PICKER
  | GAME_STATE_QUIT.

Definition Game_state_value (s : Game_state) : Z :=
  match s with
  | GAME_STATE_RUNNING => 0
  | GAME_STATE_PAUSE => 1
  | GAME_STATE_CONSOLE => 2
  | GAME_STATE_LEVEL_PICKER => 3
  | GAME_STATE_QUIT => 4
  end.

(** The members of [struct Game]. *)
Inductive Game_field : Type :=
  | F_lt | F_state | F_broadcast | F_font | F_level_picker | F_level
  | F_sound_samples | F_camera | F_console | F_renderer | F_texture_cursor
  | F_cursor_x | F_cursor_y.

Definition Game_field_eqb (a b : Game_field) : bool :=
  match a, b with
  | F_lt, F_lt | F_state, F_state | F_broadcast, F_broadcast
  | F_font, F_font | F_level_picker, F_level_picker | F_level, F_level
  | F_sound_samples, F_sound_samples | F_camera, F_camera
  | F_console, F_console | F_renderer, F_renderer
  | F_texture_cursor, F_texture_cursor | F_cursor_x, F_cursor_x
  | F_cursor_y, F_cursor_y => true
  | _, _ => false
  end.

(** The memory of one [Game]: each member is either still indeterminate
    ([None], as [nth_alloc] leaves it) or holds the value last written. *)
Definition Game : Type := Game_field -> option Z.

Definition Game_indeterminate : Game := fun _ => None.

Definition Game_write (f : Game_field) (v : Z) (g : Game) : Game :=
  fun f' => if Game_field_eqb f f' then Some v else g f'.

(** ** The world *)

Record world : Type := World {
  slots : gmap Z lt_slot_t;     (* live slots, by address *)
  lts : gmap Z (list Z);        (* live lifetimes: the slot addresses, oldest first *)
  games : gmap Z Game;          (* live Game structures *)
  oracle : list bool;           (* outcome of the next bookkeeping allocations:
                                   [false] is a failure; none left means success *)
  trace : list event            (* what has happened so far *)
}.

Definition set_slots (h : gmap Z lt_slot_t) (w : world) : world :=
  World h (lts w) (games w) (oracle w) (trace w).
Definition set_lts (h : gmap Z (list Z)) (w : world) : world :=
  World (slots w) h (games w) (oracle w) (trace w).
Definition set_games (h : gmap Z Game) (w : world) : world :=
  World (slots w) (lts w) h (oracle w) (trace w).
Definition set_oracle (o : list bool) (w : world) : world :=
  World (slots w) (lts w) (games w) o (trace w).
Definition set_trace (t : list event) (w : world) : world :=
  World (slots w) (lts w) (games w) (oracle w) t.

(** ** The monad: state, [abort()] and undefined behaviour *)

Inductive outcome (A : Type) : Type :=
  | Ret (a : A) (w : world)   (* the call returns [a] *)
  | Abort (w : world)         (* a failed assertion: the process is aborted *)
  | Undefined.                (* undefined behaviour of C *)
Arguments Ret {A} a w.
Arguments Abort {A} w.
Arguments Undefined {A}.

Definition M (A : Type) : Type := world -> outcome A.

Definition ret {A} (a : A) : M A := fun w => Ret a w.

Definition bind {A B} (m : M A) (k : A -> M B) : M B :=
  fun w =>
    match m w with
    | Ret a w' => k a w'
    | Abort w' => Abort w'
    | Undefined => Undefined
    end.

Declare Scope lt_scope.
Delimit Scope lt_scope with lt.
Notation "'let*' x ':=' m 'in' k" := (bind m (fun x => k))
  (at level 10, x name, m at level 100, k at level 200) : lt_scope.
Notation "m '>>' k" := (bind m (fun _ => k))
  (at level 90, right associativity) : lt_scope.
Local Open Scope lt_scope.

(** ** Primitive actions *)

Definition is_null (p : Z) : bool := p =? NULL.

(** [assert(p)] on a pointer. *)
Definition assert (p : Z) : M unit :=
  fun w => if is_null p then Abort w else Ret tt w.

Definition emit (e : event) : M unit :=
  fun w => Ret tt (set_trace (trace w ++ [e]) w).

Definition LF : string := String (Ascii.ascii_of_nat 10) EmptyString.

Definition printf (s : string) : M unit := emit (EvPrint s).

(** The allocator hands out an address above every address of live
    bookkeeping storage: it is never [NULL] and never live. *)
Definition max_key {A} (h : gmap Z A) : Z :=
  map_fold (fun k _ acc => Z.max k acc) 0 h.

Definition fresh_ptr (w : world) : Z :=
  1 + Z.max (max_key (slots w)) (max_key (lts w)).

(** [malloc] of bookkeeping storage for a slot: [NULL] when the allocator
    fails, otherwise a fresh address. *)
Definition malloc_slot : M Z :=
  fun w =>
    match oracle w with
    | false :: o => Ret NULL (set_oracle o w)
    | true :: o => Ret (fresh_ptr w) (set_oracle o w)
    | [] => Ret (fresh_ptr w) w
    end.

(** Writing both members of a slot that was just allocated. *)
Definition store_slot (p : Z) (s : lt_slot_t) : M unit :=
  fun w => Ret tt (set_slots (<[p := s]> (slots w)) w).

(** Reading through a slot pointer; a pointer to no live slot is
    undefined behaviour. *)
Definition load_slot (p : Z) : M lt_slot_t :=
  fun w =>
    match slots w !! p with
    | Some s => Ret s w
    | None => Undefined
    end.

(** [free(p)] of a slot. *)
Definition free_slot (p : Z) : M unit :=
  fun w =>
    match slots w !! p with
    | Some _ => Ret tt (set_trace (trace w ++ [EvFree p])
                          (set_slots (delete p (slots w)) w))
    | None => Undefined
    end.

(** The call [f(r)] through a release function pointer.  Release
    functions are opaque: the call is recorded in the trace, and that is
    all the world knows of it.  What the function does with the resource
    is not part of the world (the memory of a [Game] that is released
    with [free] is not taken out of [games]): the properties of the code
    say which release calls are made, on what and in which order, not
    what becomes of the memory that was released. *)
Definition call_destroy (f r : Z) : M unit :=
  fun w => if is_null f then Undefined else emit (EvRelease f r) w.

(** ** The slot (lt_slot.c) *)

Definition create_lt_slot (resource resource_destroy : Z) : M Z :=
  assert resource >>
  assert resource_destroy >>
  let* lt_slot := malloc_slot in
  if is_null lt_slot then ret NULL
  else
    store_slot lt_slot (Lt_slot resource resource_destroy) >>
    printf ("LT: created slot" +:+ LF) >>
    ret lt_slot.

Definition destroy_lt_slot (lt_slot : Z) : M unit :=
  assert lt_slot >>
  let* s := load_slot lt_slot in
  call_destroy (resource_destroy s) (resource s) >>
  free_slot lt_slot >>
  printf ("LT: remove slot" +:+ LF).

Definition lt_slot_reset_resource (lt_slot resource' : Z) : M unit :=
  assert lt_slot >>
  assert resource' >>
  let* s := load_slot lt_slot in
  call_destroy (resource_destroy s) (resource s) >>
  store_slot lt_slot (Lt_slot resource' (resource_destroy s)).

Definition lt_slot_contains_resource (lt_slot resource' : Z) : M Z :=
  assert lt_slot >>
  assert resource' >>
  let* s := load_slot lt_slot in
  ret (if resource s =? resource' then 1 else 0).

(** ** The Lifetime container *)

(** Modelled from the spec: the Lifetime container [Lt] with [create_lt],
    [lt_push] (the spec's [track], used through the macro [PUSH_LT]),
    [lt_reset] (the spec's [reset], macro [RESET_LT]), [destroy_lt] and the
    macro [RETURN_LT]; system/lt.h and its implementation are not part of
    the sources at hand.  A Lifetime is the ordered sequence of its slots,
    oldest first, and every slot operation is the one of lt_slot.c above. *)
Definition malloc_lt : M Z :=
  fun w =>
    match oracle w with
    | false :: o => Ret NULL (set_oracle o w)
    | true :: o => Ret (fresh_ptr w) (set_oracle o w)
    | [] => Ret (fresh_ptr w) w
    end.

(** Modelled from the spec: writing the sequence of slots of a Lifetime. *)
Definition store_frames (lt : Z) (fs : list Z) : M unit :=
  fun w => Ret tt (set_lts (<[lt := fs]> (lts w)) w).

(** Modelled from the spec: reading the sequence of slots of a Lifetime.
    Operating on a Lifetime that is not live (never created, or already
    destroyed) is undefined behaviour. *)
Definition load_frames (lt : Z) : M (list Z) :=
  fun w =>
    match lts w !! lt with
    | Some fs => Ret fs w
    | None => Undefined
    end.

(** Modelled from the spec: freeing the Lifetime's own bookkeeping. *)
Definition free_lt (lt : Z) : M unit :=
  fun w =>
    match lts w !! lt with
    | Some _ => Ret tt (set_trace (trace w ++ [EvFree lt])
                          (set_lts (delete lt (lts w)) w))
    | None => Undefined
    end.

(** Modelled from the spec: [create()] gives a new, empty Lifetime, or the
    allocation-failure signal [NULL]. *)
Definition create_lt : M Z :=
  let* lt := malloc_lt in
  if is_null lt then ret NULL
  else store_frames lt [] >> ret lt.

(** Modelled from the spec: [track(lifetime, resource, release)].  A
    failure of the caller's constructor (a [NULL] resource) is propagated
    upward with nothing registered, which is how game.c uses it: the
    result of a constructor goes to [PUSH_LT] as it is and the test for
    [NULL] comes after.  Otherwise a slot is created for the resource;
    when that fails [release(resource)] is called at once and the failure
    signal [NULL] is returned; when it succeeds the slot is appended to
    the sequence and the resource is returned unchanged. *)
Definition lt_push (lt resource resource_destroy : Z) : M Z :=
  if is_null resource then ret NULL
  else
    let* slot := create_lt_slot resource resource_destroy in
    if is_null slot then
      call_destroy resource_destroy resource >> ret NULL
    else
      let* fs := load_frames lt in
      store_frames lt (fs ++ [slot]) >>
      ret resource.

(** Modelled from the spec: locating the slot that owns a resource is a
    linear scan with the slot's ownership test, here oldest slot first. *)
Fixpoint find_owner (fs : list Z) (resource : Z) : M (option Z) :=
  match fs with
  | [] => ret None
  | slot :: fs' =>
      let* c := lt_slot_contains_resource slot resource in
      if c =? 0 then find_owner fs' resource else ret (Some slot)
  end.

(** An external constructor is opaque: its call is recorded in the trace
    and it produces the handle [result], [NULL] when it fails. *)
Definition construct (c : ctor) (args : list Z) (result : Z) : M Z :=
  emit (EvConstruct c args) >> ret result.

(** Modelled from the spec: [reset(lifetime, resource, constructor)].
    The slots are those of lt_slot.c, where the one way to replace the
    resource of a slot is [lt_slot_reset_resource]; it takes the new
    resource, so the constructor has run when the replacement starts
    (game.c writes the constructor call as an argument, see [RESET_LT]).
    [lt_reset] locates the slot that owns [old_resource] with
    [lt_slot_contains_resource].  When there is none, or when the
    constructor failed ([new_resource] is [NULL]), it returns the failure
    signal and changes nothing.  Otherwise [lt_slot_reset_resource]
    releases the old resource and stores the new one in that slot, and
    the new resource is returned.  The sequence of slots is not
    touched. *)
Definition lt_reset (lt old_resource new_resource : Z) : M Z :=
  let* fs := load_frames lt in
  let* owner := find_owner fs old_resource in
  match owner with
  | None => ret NULL
  | Some slot =>
      if is_null new_resource then ret NULL
      else
        lt_slot_reset_resource slot new_resource >>
        ret new_resource
  end.

(** Modelled from the spec: destroying slots one after the other, in the
    order of the list. *)
Fixpoint destroy_slots (fs : list Z) : M unit :=
  match fs with
  | [] => ret tt
  | slot :: fs' => destroy_lt_slot slot >> destroy_slots fs'
  end.

(** Modelled from the spec: [destroy(lifetime)] destroys every remaining
    slot, the most recently tracked first, then frees the Lifetime's own
    bookkeeping. *)
Definition destroy_lt (lt : Z) : M unit :=
  let* fs := load_frames lt in
  destroy_slots (rev fs) >>
  free_lt lt.

(** Modelled from the spec: the macro [PUSH_LT] of system/lt.h, as
    game.c uses it, tracks. *)
Definition PUSH_LT (lt resource resource_destroy : Z) : M Z :=
  lt_push lt resource resource_destroy.

(** Modelled from the spec: the macro [RESET_LT] of system/lt.h resets.
    Its third argument is the constructor expression; as an argument it
    is evaluated first, and its value is what [lt_reset] installs. *)
Definition RESET_LT (lt old_resource : Z) (constructor : M Z) : M Z :=
  let* new_resource := constructor in
  lt_reset lt old_resource new_resource.

(** Modelled from the spec: the macro [RETURN_LT(lt, x)] of system/lt.h
    destroys the Lifetime and returns [x]. *)
Definition RETURN_LT {A} (lt : Z) (result : A) : M A :=
  destroy_lt lt >> ret result.

(** ** [create_game] (game.c) *)

(** Reading and writing a member through a [Game *]. *)
Definition write_game (game : Z) (f : Game_field) (v : Z) : M unit :=
  fun w =>
    match games w !! game with
    | Some g => Ret tt (set_games (<[game := Game_write f v g]> (games w)) w)
    | None => Undefined
    end.

Definition read_game (game : Z) (f : Game_field) : M Z :=
  fun w =>
    match games w !! game with
    | Some g => match g f with Some v => Ret v w | None => Undefined end
    | None => Undefined
    end.

Section Create_game.

(** What each external constructor produces ([NULL] when it fails), and
    the addresses of the release functions. *)
Variable env : ctor -> Z.
Variables free destroy_broadcast destroy_sprite_font destroy_level_picker
          destroy_sound_samples destroy_camera destroy_console
          SDL_DestroyTexture : Z.

(** Modelled from the spec: [nth_alloc(sizeof(Game))] of
    system/nth_alloc.h is an external constructor; when it succeeds the
    memory it returns is live, all members indeterminate. *)
Definition nth_alloc : M Z :=
  let* p := construct Nth_alloc [] (env Nth_alloc) in
  if is_null p then ret NULL
  else fun w => Ret p (set_games (<[p := Game_indeterminate]> (games w)) w).

Definition create_game
    (level_folder sound_sample_files sound_sample_files_count renderer : Z)
    : M Z :=
  assert level_folder >>
  let* lt := create_lt in
  if is_null lt then ret NULL
  else
  let* r := nth_alloc in
  let* game := PUSH_LT lt r free in
  if is_null game then RETURN_LT lt NULL
  else
  write_game game F_lt lt >>
  write_game game F_state (Game_state_value GAME_STATE_LEVEL_PICKER) >>
  let* r := construct Create_broadcast [game] (env Create_broadcast) in
  let* r := PUSH_LT lt r destroy_broadcast in
  write_game game F_broadcast r >>
  let* broadcast := read_game game F_broadcast in
  if is_null broadcast then RETURN_LT lt NULL
  else
  let* r := construct Create_sprite_font_from_file [renderer]
              (env Create_sprite_font_from_file) in
  let* r := PUSH_LT lt r destroy_sprite_font in
  write_game game F_font r >>
  let* font := read_game game F_font in
  if is_null font then RETURN_LT lt NULL
  else
  let* font := read_game game F_font in
  let* r := construct Create_level_picker [font; level_folder]
              (env Create_level_picker) in
  let* r := PUSH_LT lt r destroy_level_picker in
  write_game game F_level_picker r >>
  let* level_picker := read_game game F_level_picker in
  if is_null level_picker then RETURN_LT lt NULL
  else
  write_game game F_level NULL >>
  let* r := construct Create_sound_samples
              [sound_sample_files; sound_sample_files_count]
              (env Create_sound_samples) in
  let* r := PUSH_LT lt r destroy_sound_samples in
  write_game game F_sound_samples r >>
  let* sound_samples := read_game game F_sound_samples in
  if is_null sound_samples then RETURN_LT lt NULL
  else
  let* font := read_game game F_font in
  let* r := construct Create_camera [renderer; font] (env Create_camera) in
  let* r := PUSH_LT lt r destroy_camera in
  write_game game F_camera r >>
  let* camera := read_game game F_camera in
  if is_null camera then RETURN_LT lt NULL
  else
  let* broadcast := read_game game F_broadcast in
  let* font := read_game game F_font in
  let* r := construct Create_console [broadcast; font] (env Create_console) in
  let* r := PUSH_LT lt r destroy_console in
  write_game game F_console r >>
  let* console := read_game game F_console in
  if is_null console then RETURN_LT lt NULL
  else
  write_game game F_renderer renderer >>
  let* r := construct Texture_from_bmp [renderer] (env Texture_from_bmp) in
  let* r := PUSH_LT lt r SDL_DestroyTexture in
  write_game game F_texture_cursor r >>
  write_game game F_cursor_x 0 >>
  write_game game F_cursor_y 0 >>
  ret game.

End Create_game.

(** ** Observations on traces *)

(** The release calls of a piece of trace, as (resource, release
    function) pairs in the order of the calls. *)
Fixpoint releases (t : list event) : list (Z * Z) :=
  match t with
  | [] => []
  | EvRelease f r :: t' => (r, f) :: releases t'
  | _ :: t' => releases t'
  end.

(** The release calls made by a computation that returns, from a world. *)
Definition released_by {A} (m : M A) (w : world) : option (list (Z * Z)) :=
  match m w with
  | Ret _ w' => Some (releases (trace w'))
  | _ => None
  end.

(** A world with nothing live, an allocator that never fails and an
    empty trace. *)
Definition world_empty : world := World ∅ ∅ ∅ [] [].

(** A slot at address [p] holds the pair [rf] of a resource and its
    release function. *)
Definition slot_holds (w : world) (p : Z) (rf : Z * Z) : Prop :=
  p <> NULL /\ slots w !! p = Some (Lt_slot (fst rf) (snd rf)) /\
  snd rf <> NULL.

(** The Lifetime [lt] tracks exactly the pairs [rs], oldest first, each in
    a live slot of its own. *)
Definition lt_holds (w : world) (lt : Z) (rs : list (Z * Z)) : Prop :=
  exists ps, lts w !! lt = Some ps /\ NoDup ps /\ Forall2 (slot_holds w) ps rs.

(** [tracked lt w rs w']: from [w], the successful calls
    [lt_push lt r f], one for each [(r, f)] of [rs] in this order, lead
    to [w']. *)
Inductive tracked (lt : Z) : world -> list (Z * Z) -> world -> Prop :=
  | tracked_nil w : tracked lt w [] w
  | tracked_push w rs w1 r f w2 :
      tracked lt w rs w1 ->
      lt_push lt r f w1 = Ret r w2 -> r <> NULL ->
      tracked lt w (rs ++ [(r, f)]) w2.

(** A slot that does not own [old]: live, holding another resource. *)
Definition not_owner (w : world) (old : Z) (p : Z) : Prop :=
  p <> NULL /\ exists s, slots w !! p = Some s /\ resource s <> old.

(** The constructors whose tracked result [create_game] checks, in the
    order of the calls. *)
Definition checked_ctors : list ctor :=
  [Nth_alloc; Create_broadcast; Create_sprite_font_from_file;
   Create_level_picker; Create_sound_samples; Create_camera; Create_console].

(** The first [n] bookkeeping allocations succeed. *)
Definition allocs_ok (n : nat) (o : list bool) : Prop :=
  forall i, (i < n)%nat -> nth i o true = true.

(** [wp m Q w]: from [w], the computation [m] returns, with a value and
    a world that satisfy [Q]. *)
Definition wp {A} (m : M A) (Q : A -> world -> Prop) (w : world) : Prop :=
  exists a w', m w = Ret a w' /\ Q a w'.

(** The Lifetime [lt], created on top of the lifetimes [base], tracks
    exactly [rs]. *)
Definition lifetime_inv (base : gmap Z (list Z)) (lt : Z) (rs : list (Z * Z))
    (w : world) : Prop :=
  exists ps,
    lts w = <[lt := ps]> base /\ NoDup ps /\ Forall2 (slot_holds w) ps rs.

(** What [create_game] stores in [texture_cursor]: the result of tracking
    the result of [texture_from_bmp]. *)
Definition cursor_value (env : ctor -> Z) (o : list bool) : Z :=
  if is_null (env Texture_from_bmp) then NULL
  else if nth 8 o true then env Texture_from_bmp else NULL.

(** What the Lifetime of a [Game] that [create_game] returned tracks. *)
Definition tracked_by_create_game (env : ctor -> Z)
    (free destroy_broadcast destroy_sprite_font destroy_level_picker
     destroy_sound_samples destroy_camera destroy_console
     SDL_DestroyTexture : Z) (o : list bool) : list (Z * Z) :=
  [(env Nth_alloc, free);
   (env Create_broadcast, destroy_broadcast);
   (env Create_sprite_font_from_file, destroy_sprite_font);
   (env Create_level_picker, destroy_level_picker);
   (env Create_sound_samples, destroy_sound_samples);
   (env Create_camera, destroy_camera);
   (env Create_console, destroy_console)]
  ++ (if is_null (cursor_value env o) then []
      else [(env Texture_from_bmp, SDL_DestroyTexture)]).


(** The outcome of [create_game] from the world [w0]: the value [g]
    returned and the world [w'] left. *)
Definition create_game_post (env : ctor -> Z)
    (free destroy_broadcast destroy_sprite_font destroy_level_picker
     destroy_sound_samples destroy_camera destroy_console
     SDL_DestroyTexture : Z) (w0 : world) (g : Z) (w' : world) : Prop :=
  (g = NULL -> lts w' = lts w0) /\
  (g <> NULL <->
   Forall (fun c => env c <> NULL) checked_ctors /\ allocs_ok 8 (oracle w0)) /\
  (g <> NULL ->
   g = env Nth_alloc /\
   exists lt gm,
     games w' !! g = Some gm /\
     gm F_lt = Some lt /\
     gm F_texture_cursor = Some (cursor_value env (oracle w0)) /\
     lt_holds w' lt
       (tracked_by_create_game env free destroy_broadcast destroy_sprite_font
          destroy_level_picker destroy_sound_samples destroy_camera
          destroy_console SDL_DestroyTexture (oracle w0))).

(** Two environments for examples: every constructor succeeds except
    [texture_from_bmp], respectively except [create_camera]. *)
Definition env_no_cursor (c : ctor) : Z :=
  match c with
  | Nth_alloc => 100
  | Create_broadcast => 101
  | Create_sprite_font_from_file => 102
  | Create_level_picker => 103
  | Create_sound_samples => 104
  | Create_camera => 105
  | Create_console => 106
  | Texture_from_bmp => NULL
  | Create_level_from_file => 108
  end.

Definition env_no_camera (c : ctor) : Z :=
  match c with
  | Create_camera => NULL
  | Texture_from_bmp => 107
  | _ => env_no_cursor c
  end.

(** ** Sequences of slot operations *)

(** Replacing the resource of one slot again and again, by the resources
    of [rs] in this order. *)
Fixpoint reset_all (lt_slot : Z) (rs : list Z) : M unit :=
  match rs with
  | [] => ret tt
  | r :: rs' => lt_slot_reset_resource lt_slot r >> reset_all lt_slot rs'
  end.

(** ** [create_game] and [destroy_game]: what becomes of the handles *)

(** The handles that the constructor calls of a piece of trace produced,
    each with the release function [rel] pairs it with, in the order of
    the calls; a constructor that failed produced none. *)
Fixpoint constructed (env rel : ctor -> Z) (t : list event) : list (Z * Z) :=
  match t with
  | [] => []
  | EvConstruct c _ :: t' =>
      (if is_null (env c) then [] else [(env c, rel c)])
        ++ constructed env rel t'
  | _ :: t' => constructed env rel t'
  end.

(** While [create_game] runs: the Lifetime tracks [rs], which are the
    handles constructed so far, and nothing has been released. *)
Definition create_game_inv (env rel : ctor -> Z) (w0 : world) (lt : Z)
    (rs : list (Z * Z)) (w : world) : Prop :=
  lifetime_inv (lts w0) lt rs w /\
  exists t, trace w = trace w0 ++ t /\ releases t = [] /\
            constructed env rel t = rs.

(** The outcome of [create_game] from [w0], as to the handles: [g] is
    the value returned, [w'] the world left. *)
Definition create_game_handles (env rel : ctor -> Z) (w0 : world) (g : Z)
    (w' : world) : Prop :=
  exists t,
    trace w' = trace w0 ++ t /\
    (g = NULL -> releases t = rev (constructed env rel t)) /\
    (g <> NULL ->
     exists lt gm rs,
       lts w0 !! lt = None /\
       lifetime_inv (lts w0) lt rs w' /\
       games w' !! g = Some gm /\ gm F_lt = Some lt /\
       constructed env rel t = rs ++ rev (releases t) /\
       (length (releases t) <= 1)%nat).

(** Release functions for examples, one address for each constructor. *)
Definition rel_example (c : ctor) : Z :=
  match c with
  | Nth_alloc => 1
  | Create_broadcast => 2
  | Create_sprite_font_from_file => 3
  | Create_level_picker => 4
  | Create_sound_samples => 5
  | Create_camera => 6
  | Create_console => 7
  | Texture_from_bmp => 8
  | Create_level_from_file => 9
  end.

(** Modelled from the spec: the macro [RETURN_LT0(lt)] of system/lt.h
    destroys the Lifetime and returns. *)
Definition RETURN_LT0 (lt : Z) : M unit := destroy_lt lt.

(** [void destroy_game(Game *game)] *)
Definition destroy_game (game : Z) : M unit :=
  assert game >>
  let* lt := read_game game F_lt in
  RETURN_LT0 lt.

(** ** The frame functions of game.c *)

(** [SDL_Keycode], as far as game.c tells keys apart. *)
Inductive SDL_Keycode : Type :=
  | SDLK_ESCAPE | SDLK_BACKQUOTE | SDLK_c | SDLK_l | SDLK_p | SDLK_q | SDLK_r
  | SDLK_OTHER.

(** The mouse buttons, as far as proto_rect.c tells them apart. *)
Inductive SDL_Button : Type :=
  | SDL_BUTTON_LEFT
  | SDL_BUTTON_OTHER.

(** [SDL_Event]: the tag [type] and the member of the union that goes
    with it. *)
Inductive SDL_Event : Type :=
  | SDL_QUIT
  | SDL_KEYDOWN (sym : SDL_Keycode)
  | SDL_KEYUP (sym : SDL_Keycode)
  | SDL_MOUSEMOTION (x y : Z)
  | SDL_MOUSEBUTTONDOWN (button : SDL_Button) (x y : Z)
  | SDL_MOUSEBUTTONUP (button : SDL_Button) (x y : Z)
  | SDL_OTHER_EVENT.

(** The value of the [state] member as a [Game_state]; [None] for a
    value that is no enumerator, which no [case] of a [switch] takes. *)
Definition Game_state_of (z : Z) : option Game_state :=
  if z =? 0 then Some GAME_STATE_RUNNING
  else if z =? 1 then Some GAME_STATE_PAUSE
  else if z =? 2 then Some GAME_STATE_CONSOLE
  else if z =? 3 then Some GAME_STATE_LEVEL_PICKER
  else if z =? 4 then Some GAME_STATE_QUIT
  else None.

(** [trace_assert(c)] on a condition. *)
Definition assert_true (c : bool) : M unit :=
  fun w => if c then Ret tt w else Abort w.

(** [trace_assert(event)] on a [const SDL_Event *]: [None] is [NULL]. *)
Definition assert_event (event : option SDL_Event) : M SDL_Event :=
  fun w => match event with Some e => Ret e w | None => Abort w end.

(** Reading through a [const SDL_Event *] that was not tested. *)
Definition deref_event (event : option SDL_Event) : M SDL_Event :=
  fun w => match event with Some e => Ret e w | None => Undefined end.

(** A member of a live [Game], as the world has it. *)
Definition Game_member (w : world) (game : Z) (f : Game_field) : option Z :=
  match games w !! game with
  | Some gm => gm f
  | None => None
  end.

Section Game_functions.

Context {float : Type}.

(** The functions of the other modules that game.c calls, and
    [destroy_level], whose address it hands to [PUSH_LT].  They are not
    in the sources at hand and are parameters: each one is any
    computation at all.  [float_gt_zero x] is the C test [x > 0.0f]. *)
Record Game_collaborators : Type := {
  float_gt_zero : float -> bool;
  destroy_level : Z;
  create_level_from_file : Z -> Z -> M Z;
  level_render : Z -> Z -> M Z;
  level_sound : Z -> Z -> M Z;
  level_update : Z -> float -> M Z;
  level_enter_camera_event : Z -> Z -> M Z;
  level_event : Z -> SDL_Event -> M Z;
  level_input : Z -> Z -> Z -> M Z;
  level_toggle_debug_mode : Z -> M unit;
  level_reload_preserve_player : Z -> Z -> M Z;
  level_picker_render : Z -> Z -> Z -> M Z;
  level_picker_update : Z -> float -> M Z;
  level_picker_enter_camera_event : Z -> Z -> M Z;
  level_picker_selected_level : Z -> M Z;
  level_picker_event : Z -> SDL_Event -> M Z;
  level_picker_input : Z -> Z -> Z -> M Z;
  console_render : Z -> Z -> M Z;
  console_update : Z -> float -> M Z;
  console_slide_down : Z -> M unit;
  console_handle_event : Z -> SDL_Event -> M Z;
  camera_toggle_blackwhite_mode : Z -> M unit;
  camera_toggle_debug_mode : Z -> M unit;
  camera_disable_debug_mode : Z -> M unit;
  sound_samples_toggle_pause : Z -> M unit;
  SDL_RenderCopy : Z -> Z -> Z * Z * Z * Z -> Z * Z * Z * Z -> M Z;
  SDL_StartTextInput : M unit;
  SDL_StopTextInput : M unit;
  log_info : string -> list Z -> M unit;
  log_fail : string -> list Z -> M unit
}.

Variable C : Game_collaborators.

(** [int game_render(const Game *game)] *)
Definition game_render (game : Z) : M Z :=
  assert game >>
  let* state := read_game game F_state in
  match Game_state_of state with
  | Some GAME_STATE_RUNNING | Some GAME_STATE_PAUSE =>
      let* level := read_game game F_level in
      let* camera := read_game game F_camera in
      let* r := level_render C level camera in
      if r <? 0 then ret (-1)
      else
      let* cursor_x := read_game game F_cursor_x in
      let* cursor_y := read_game game F_cursor_y in
      let* renderer := read_game game F_renderer in
      let* texture_cursor := read_game game F_texture_cursor in
      let* r := SDL_RenderCopy C renderer texture_cursor
                  (0, 0, 32, 32) (cursor_x, cursor_y, 32, 32) in
      if r <? 0 then ret (-1) else ret 0
  | Some GAME_STATE_CONSOLE =>
      let* level := read_game game F_level in
      let* camera := read_game game F_camera in
      let* r := level_render C level camera in
      if r <? 0 then ret (-1)
      else
      let* console := read_game game F_console in
      let* renderer := read_game game F_renderer in
      let* r := console_render C console renderer in
      if r <? 0 then ret (-1) else ret 0
  | Some GAME_STATE_LEVEL_PICKER =>
      let* level_picker := read_game game F_level_picker in
      let* camera := read_game game F_camera in
      let* renderer := read_game game F_renderer in
      let* r := level_picker_render C level_picker camera renderer in
      if r <? 0 then ret (-1)
      else
      let* cursor_x := read_game game F_cursor_x in
      let* cursor_y := read_game game F_cursor_y in
      let* renderer := read_game game F_renderer in
      let* texture_cursor := read_game game F_texture_cursor in
      let* r := SDL_RenderCopy C renderer texture_cursor
                  (0, 0, 32, 32) (cursor_x, cursor_y, 32, 32) in
      if r <? 0 then ret (-1) else ret 0
  | Some GAME_STATE_QUIT => ret 0
  | None => ret 0
  end.

(** [int game_sound(Game *game)] *)
Definition game_sound (game : Z) : M Z :=
  let* state := read_game game F_state in
  match Game_state_of state with
  | Some GAME_STATE_RUNNING | Some GAME_STATE_PAUSE
  | Some GAME_STATE_CONSOLE =>
      let* level := read_game game F_level in
      let* sound_samples := read_game game F_sound_samples in
      level_sound C level sound_samples
  | Some GAME_STATE_LEVEL_PICKER | Some GAME_STATE_QUIT => ret 0
  | None => ret 0
  end.

(** [int game_update(Game *game, float delta_time)] *)
Definition game_update (game : Z) (delta_time : float) : M Z :=
  assert game >>
  assert_true (float_gt_zero C delta_time) >>
  let* state := read_game game F_state in
  match Game_state_of state with
  | Some GAME_STATE_RUNNING =>
      let* level := read_game game F_level in
      let* r := level_update C level delta_time in
      if r <? 0 then ret (-1)
      else
      let* level := read_game game F_level in
      let* camera := read_game game F_camera in
      let* r := level_enter_camera_event C level camera in
      if r <? 0 then ret (-1) else ret 0
  | Some GAME_STATE_CONSOLE =>
      let* level := read_game game F_level in
      let* r := level_update C level delta_time in
      if r <? 0 then ret (-1)
      else
      let* level := read_game game F_level in
      let* camera := read_game game F_camera in
      let* r := level_enter_camera_event C level camera in
      if r <? 0 then ret (-1)
      else
      let* console := read_game game F_console in
      let* r := console_update C console delta_time in
      if r <? 0 then ret (-1) else ret 0
  | Some GAME_STATE_LEVEL_PICKER =>
      let* level_picker := read_game game F_level_picker in
      let* r := level_picker_update C level_picker delta_time in
      if r <? 0 then ret (-1)
      else
      let* level_picker := read_game game F_level_picker in
      let* camera := read_game game F_camera in
      let* r := level_picker_enter_camera_event C level_picker camera in
      if r <? 0 then ret (-1)
      else
      let* level_picker := read_game game F_level_picker in
      let* level_folder := level_picker_selected_level C level_picker in
      if is_null level_folder then ret 0
      else
      let* level := read_game game F_level in
      (if is_null level then
         let* lt := read_game game F_lt in
         let* broadcast := read_game game F_broadcast in
         let* r := create_level_from_file C level_folder broadcast in
         let* r := PUSH_LT lt r (destroy_level C) in
         write_game game F_level r
       else
         let* lt := read_game game F_lt in
         let* level := read_game game F_level in
         let* r := RESET_LT lt level
                     (let* broadcast := read_game game F_broadcast in
                      create_level_from_file C level_folder broadcast) in
         write_game game F_level r) >>
      let* level := read_game game F_level in
      if is_null level then ret (-1)
      else
      write_game game F_state (Game_state_value GAME_STATE_RUNNING) >>
      ret 0
  | Some GAME_STATE_PAUSE | Some GAME_STATE_QUIT => ret 0
  | None => ret 0
  end.

(** [static int game_event_pause(Game *game, const SDL_Event *event)] *)
Definition game_event_pause (game : Z) (event : option SDL_Event) : M Z :=
  assert game >>
  let* e := assert_event event in
  match e with
  | SDL_QUIT =>
      write_game game F_state (Game_state_value GAME_STATE_QUIT)
  | SDL_KEYDOWN SDLK_p =>
      write_game game F_state (Game_state_value GAME_STATE_RUNNING) >>
      let* camera := read_game game F_camera in
      camera_toggle_blackwhite_mode C camera >>
      let* sound_samples := read_game game F_sound_samples in
      sound_samples_toggle_pause C sound_samples
  | SDL_KEYDOWN SDLK_l =>
      let* camera := read_game game F_camera in
      camera_toggle_debug_mode C camera >>
      let* level := read_game game F_level in
      level_toggle_debug_mode C level
  | _ => ret tt
  end >>
  let* level := read_game game F_level in
  level_event C level e.

(** [static int game_event_running(Game *game, const SDL_Event *event)];
    [None] is the end of the [switch], [Some r] a [return r] within it. *)
Definition game_event_running (game : Z) (event : option SDL_Event) : M Z :=
  assert game >>
  let* e := assert_event event in
  let* returned :=
    match e with
    | SDL_QUIT =>
        write_game game F_state (Game_state_value GAME_STATE_QUIT) >>
        ret None
    | SDL_KEYDOWN SDLK_r =>
        let* level_picker := read_game game F_level_picker in
        let* level_filename := level_picker_selected_level C level_picker in
        log_info C ("Reloading the level from '%s'..." +:+ LF)
          [level_filename] >>
        let* lt := read_game game F_lt in
        let* level := read_game game F_level in
        let* r := RESET_LT lt level
                    (let* broadcast := read_game game F_broadcast in
                     create_level_from_file C level_filename broadcast) in
        write_game game F_level r >>
        let* level := read_game game F_level in
        if is_null level then
          log_fail C ("Could not reload level %s" +:+ LF) [level_filename] >>
          write_game game F_state (Game_state_value GAME_STATE_QUIT) >>
          ret (Some (-1))
        else
          let* camera := read_game game F_camera in
          camera_disable_debug_mode C camera >>
          ret None
    | SDL_KEYDOWN SDLK_q =>
        let* level := read_game game F_level in
        let* broadcast := read_game game F_broadcast in
        let* r := level_reload_preserve_player C level broadcast in
        if r <? 0 then
          log_fail C ("Could not reload level" +:+ LF) [] >>
          write_game game F_state (Game_state_value GAME_STATE_QUIT) >>
          ret (Some (-1))
        else ret None
    | SDL_KEYDOWN SDLK_p =>
        write_game game F_state (Game_state_value GAME_STATE_PAUSE) >>
        let* camera := read_game game F_camera in
        camera_toggle_blackwhite_mode C camera >>
        let* sound_samples := read_game game F_sound_samples in
        sound_samples_toggle_pause C sound_samples >>
        ret None
    | SDL_KEYDOWN SDLK_l =>
        let* camera := read_game game F_camera in
        camera_toggle_debug_mode C camera >>
        let* level := read_game game F_level in
        level_toggle_debug_mode C level >>
        ret None
    | SDL_KEYUP SDLK_BACKQUOTE | SDL_KEYUP SDLK_c =>
        SDL_StartTextInput C >>
        write_game game F_state (Game_state_value GAME_STATE_CONSOLE) >>
        let* console := read_game game F_console in
        console_slide_down C console >>
        ret None
    | SDL_MOUSEMOTION x y =>
        write_game game F_cursor_x x >>
        write_game game F_cursor_y y >>
        ret None
    | _ => ret None
    end in
  match returned with
  | Some r => ret r
  | None =>
      let* level := read_game game F_level in
      level_event C level e
  end.

(** [static int game_event_console(Game *game, const SDL_Event *event)] *)
Definition game_event_console (game : Z) (event : option SDL_Event) : M Z :=
  let* e := deref_event event in
  match e with
  | SDL_QUIT =>
      write_game game F_state (Game_state_value GAME_STATE_QUIT) >>
      ret 0
  | SDL_KEYDOWN SDLK_ESCAPE =>
      SDL_StopTextInput C >>
      write_game game F_state (Game_state_value GAME_STATE_RUNNING) >>
      ret 0
  | _ =>
      let* console := read_game game F_console in
      console_handle_event C console e
  end.

(** [static int game_event_level_picker(Game *game, const SDL_Event *event)] *)
Definition game_event_level_picker (game : Z) (event : option SDL_Event)
    : M Z :=
  assert game >>
  let* e := assert_event event in
  match e with
  | SDL_QUIT =>
      write_game game F_state (Game_state_value GAME_STATE_QUIT) >>
      ret 0
  | SDL_MOUSEMOTION x y =>
      write_game game F_cursor_x x >>
      write_game game F_cursor_y y >>
      ret 0
  | _ =>
      let* level_picker := read_game game F_level_picker in
      level_picker_event C level_picker e
  end.

(** [int game_event(Game *game, const SDL_Event *event)] *)
Definition game_event (game : Z) (event : option SDL_Event) : M Z :=
  assert game >>
  assert_event event >>
  let* state := read_game game F_state in
  match Game_state_of state with
  | Some GAME_STATE_RUNNING => game_event_running game event
  | Some GAME_STATE_PAUSE => game_event_pause game event
  | Some GAME_STATE_CONSOLE => game_event_console game event
  | Some GAME_STATE_LEVEL_PICKER => game_event_level_picker game event
  | Some GAME_STATE_QUIT => ret 0
  | None => ret 0
  end.

(** [int game_input(Game *game, const Uint8 *const keyboard_state,
    SDL_Joystick *the_stick_of_joy)] *)
Definition game_input (game keyboard_state the_stick_of_joy : Z) : M Z :=
  assert game >>
  assert keyboard_state >>
  let* state := read_game game F_state in
  match Game_state_of state with
  | Some GAME_STATE_QUIT | Some GAME_STATE_PAUSE
  | Some GAME_STATE_CONSOLE => ret 0
  | Some GAME_STATE_RUNNING =>
      let* level := read_game game F_level in
      level_input C level keyboard_state the_stick_of_joy
  | Some GAME_STATE_LEVEL_PICKER =>
      let* level_picker := read_game game F_level_picker in
      level_picker_input C level_picker keyboard_state the_stick_of_joy
  | None => ret 0
  end.

(** [int game_over_check(const Game *game)] *)
Definition game_over_check (game : Z) : M Z :=
  let* state := read_game game F_state in
  ret (if state =? Game_state_value GAME_STATE_QUIT then 1 else 0).

End Game_functions.

(** Collaborators for examples: every call returns at once and changes
    nothing; the level picker reports the selection [folder],
    [create_level_from_file] yields [level], every other call returns 0
    (or nothing). *)
Definition example_collaborators (folder level : Z)
    : @Game_collaborators Z := {|
  float_gt_zero := fun x => 0 <? x;
  destroy_level := 9;
  create_level_from_file := fun _ _ => ret level;
  level_render := fun _ _ => ret 0;
  level_sound := fun _ _ => ret 0;
  level_update := fun _ _ => ret 0;
  level_enter_camera_event := fun _ _ => ret 0;
  level_event := fun _ _ => ret 0;
  level_input := fun _ _ _ => ret 0;
  level_toggle_debug_mode := fun _ => ret tt;
  level_reload_preserve_player := fun _ _ => ret 0;
  level_picker_render := fun _ _ _ => ret 0;
  level_picker_update := fun _ _ => ret 0;
  level_picker_enter_camera_event := fun _ _ => ret 0;
  level_picker_selected_level := fun _ => ret folder;
  level_picker_event := fun _ _ => ret 0;
  level_picker_input := fun _ _ _ => ret 0;
  console_render := fun _ _ => ret 0;
  console_update := fun _ _ => ret 0;
  console_slide_down := fun _ => ret tt;
  console_handle_event := fun _ _ => ret 0;
  camera_toggle_blackwhite_mode := fun _ => ret tt;
  camera_toggle_debug_mode := fun _ => ret tt;
  camera_disable_debug_mode := fun _ => ret tt;
  sound_samples_toggle_pause := fun _ => ret tt;
  SDL_RenderCopy := fun _ _ _ _ => ret 0;
  SDL_StartTextInput := ret tt;
  SDL_StopTextInput := ret tt;
  log_info := fun _ _ => ret tt;
  log_fail := fun _ _ => ret tt
|}.

(** Nothing is selected and no level can be made. *)
Definition idle_collaborators : @Game_collaborators Z :=
  example_collaborators NULL NULL.

(** A [Game] for examples, every member written, in the given state. *)
Definition game_example (state : Game_state) : Game :=
  fun f =>
    match f with
    | F_lt => Some 1
    | F_state => Some (Game_state_value state)
    | F_broadcast => Some 101
    | F_font => Some 102
    | F_level_picker => Some 103
    | F_level => Some 110
    | F_sound_samples => Some 104
    | F_camera => Some 105
    | F_console => Some 106
    | F_renderer => Some 53
    | F_texture_cursor => Some 107
    | F_cursor_x => Some 0
    | F_cursor_y => Some 0
    end.

Definition world_example (state : Game_state) : world :=
  World ∅ ∅ {[ 100 := game_example state ]} [] [].

(** A call that, when it returns, has left the memory of every [Game] as
    it was. *)
Definition keeps_games {A} (m : M A) : Prop :=
  forall w a w', m w = Ret a w' -> games w' = games w.

(** A call that returns, whatever the world, and leaves the memory of
    every [Game] as it was. *)
Definition returns_keeping_games {A} (m : M A) : Prop :=
  forall w, exists a w', m w = Ret a w' /\ games w' = games w.

(** A call of another module that returns, with a result that satisfies
    [P], whatever the world, touches neither the slots, the lifetimes,
    the memory of a [Game] nor the allocator, and only adds to the
    trace. *)
Definition external_call {A} (P : A -> Prop) (m : M A) : Prop :=
  forall w, exists a w',
    m w = Ret a w' /\ P a /\
    slots w' = slots w /\ lts w' = lts w /\ games w' = games w /\
    oracle w' = oracle w /\ exists t, trace w' = trace w ++ t.

(** A call that returns, whatever the world. *)
Definition returns {A} (m : M A) : Prop :=
  forall w, exists a w', m w = Ret a w'.

(** ** The rectangle drawn with the mouse in the level editor
    (game/level/level_editor/proto_rect.c) *)

Module proto_rect.

Section Proto_rect_functions.

Context {Point Rect Color float : Type}.

(** [ProtoRect], with the members that proto_rect.c reads and writes;
    [end_] is the member [end]. *)
Record ProtoRect : Type := Build_ProtoRect {
  active : bool;
  begin : Point;
  end_ : Point;
  color : Color
}.

(** [trace_assert(proto_rect)] on a [ProtoRect *]: [None] is [NULL]. *)
Definition assert_proto_rect (proto_rect : option ProtoRect) : M ProtoRect :=
  fun w => match proto_rect with Some p => Ret p w | None => Abort w end.

(** What proto_rect.c takes from elsewhere: [rect_from_points] and the
    members [w] and [h] of the [Rect] it makes, the product and the
    comparison of [float]s, the value of the literal 10.0, and the
    functions of the camera, the boxes and the log.  The functions that
    are called are arbitrary computations on the world. *)
Record Proto_rect_collaborators : Type := {
  rect_from_points : Point -> Point -> Rect;
  rect_w : Rect -> float;
  rect_h : Rect -> float;
  float_mul : float -> float -> float;
  float_ge : float -> float -> bool;
  PROTO_AREA_THRESHOLD : float;
  camera_fill_rect : Z -> Rect -> Color -> M Z;
  camera_map_screen : Z -> Z -> Z -> M Point;
  boxes_add_box : Z -> Rect -> Color -> M Z;
  log_info : string -> list float -> M unit
}.

Variable C : Proto_rect_collaborators.

(** [int proto_rect_render(const ProtoRect *proto_rect, Camera *camera)] *)
Definition proto_rect_render (proto_rect : option ProtoRect) (camera : Z)
    : M Z :=
  let* p := assert_proto_rect proto_rect in
  assert camera >>
  if active p then
    let* r := camera_fill_rect C camera
                (rect_from_points C (begin p) (end_ p)) (color p) in
    if r <? 0 then ret (-1) else ret 0
  else ret 0.

(** [int proto_rect_update(ProtoRect *proto_rect, float delta_time)] *)
Definition proto_rect_update (proto_rect : option ProtoRect)
    (delta_time : float) : M Z :=
  let* _ := assert_proto_rect proto_rect in
  ret 0.

(** [int proto_rect_event(ProtoRect *proto_rect, const SDL_Event *event,
    const Camera *camera, Boxes *boxes)]: the result and the [ProtoRect]
    as the call leaves it. *)
Definition proto_rect_event (proto_rect : option ProtoRect)
    (event : option SDL_Event) (camera boxes : Z) : M (Z * ProtoRect) :=
  let* p := assert_proto_rect proto_rect in
  let* e := assert_event event in
  assert camera >>
  assert boxes >>
  if active p then
    match e with
    | SDL_MOUSEBUTTONUP SDL_BUTTON_LEFT _ _ =>
        let real_rect := rect_from_points C (begin p) (end_ p) in
        let area := float_mul C (rect_w C real_rect) (rect_h C real_rect) in
        (if float_ge C area (PROTO_AREA_THRESHOLD C)
         then boxes_add_box C boxes real_rect (color p) >> ret tt
         else log_info C
                ("The area is too small %f. Such small box won't be created."
                 +:+ LF) [area]) >>
        ret (0, Build_ProtoRect false (begin p) (end_ p) (color p))
    | SDL_MOUSEMOTION x y =>
        let* v := camera_map_screen C camera x y in
        ret (0, Build_ProtoRect (active p) (begin p) v (color p))
    | _ => ret (0, p)
    end
  else
    match e with
    | SDL_MOUSEBUTTONDOWN SDL_BUTTON_LEFT x y =>
        let* v := camera_map_screen C camera x y in
        ret (0, Build_ProtoRect true v v (color p))
    | _ => ret (0, p)
    end.

(** The events of a list given to [proto_rect_event] one after the
    other, each call working on the [ProtoRect] that the call before
    left, as a caller does that hands on every event it gets. *)
Fixpoint proto_rect_events (p : ProtoRect) (events : list SDL_Event)
    (camera boxes : Z) : M ProtoRect :=
  match events with
  | [] => ret p
  | e :: es =>
      let* r := proto_rect_event (Some p) (Some e) camera boxes in
      proto_rect_events (snd r) es camera boxes
  end.

End Proto_rect_functions.

(** Collaborators for examples: points are pairs, a rectangle is its
    corner and its sides, the screen is mapped as it is, adding a box and
    logging leave a line in the trace. *)
Definition example_collaborators
    : @Proto_rect_collaborators (Z * Z) (Z * Z * (Z * Z)) Z Z := {|
  rect_from_points := fun b e =>
    (Z.min (fst b) (fst e), Z.min (snd b) (snd e),
     (Z.abs (fst e - fst b), Z.abs (snd e - snd b)));
  rect_w := fun r => fst (snd r);
  rect_h := fun r => snd (snd r);
  float_mul := Z.mul;
  float_ge := Z.geb;
  PROTO_AREA_THRESHOLD := 10;
  camera_fill_rect := fun _ _ _ => ret 0;
  camera_map_screen := fun _ x y => ret (x, y);
  boxes_add_box := fun _ _ _ => printf "box" >> ret 0;
  log_info := fun s _ => printf s
|}.

End proto_rect.

(** * Properties *)

(** ** Basic facts about the model *)

Lemma is_null_false (p : Z) : p <> NULL -> is_null p = false.
Proof. intros H. unfold is_null. now apply Z.eqb_neq. Qed.

Lemma is_null_true (p : Z) : is_null p = true -> p = NULL.
Proof. unfold is_null. now intros H%Z.eqb_eq. Qed.

Lemma max_key_bounds {A} (h : gmap Z A) :
  0 <= max_key h /\ forall k v, h !! k = Some v -> k <= max_key h.
Proof.
  unfold max_key.
  apply (map_fold_weak_ind
           (fun b (m : gmap Z A) => 0 <= b /\ forall k v, m !! k = Some v -> k <= b)).
  - split; [lia |]. intros k v H. now rewrite lookup_empty in H.
  - intros i x m r Hi [H0 IH]. split; [lia |].
    intros k v Hk. destruct (decide (i = k)) as [-> | Hne].
    + lia.
    + rewrite lookup_insert_ne in Hk by done. specialize (IH _ _ Hk). lia.
Qed.

Lemma fresh_ptr_not_null (w : world) : fresh_ptr w <> NULL.
Proof.
  unfold fresh_ptr, NULL.
  pose proof (max_key_bounds (slots w)) as [H _]. lia.
Qed.

Lemma fresh_ptr_slots (w : world) : slots w !! fresh_ptr w = None.
Proof.
  destruct (slots w !! fresh_ptr w) as [s |] eqn:E; [| done].
  apply (max_key_bounds (slots w)) in E. unfold fresh_ptr in E. lia.
Qed.

Lemma fresh_ptr_lts (w : world) : lts w !! fresh_ptr w = None.
Proof.
  destruct (lts w !! fresh_ptr w) as [s |] eqn:E; [| done].
  apply (max_key_bounds (lts w)) in E. unfold fresh_ptr in E. lia.
Qed.

Lemma releases_app (t1 t2 : list event) :
  releases (t1 ++ t2) = releases t1 ++ releases t2.
Proof.
  induction t1 as [| e t1 IH]; [done |].
  destruct e; simpl; now rewrite ?IH.
Qed.

(** ** The slot *)

Ltac slot_unfold :=
  unfold create_lt_slot, destroy_lt_slot, lt_slot_reset_resource,
    lt_slot_contains_resource, bind, ret, assert, malloc_slot, store_slot,
    load_slot, free_slot, call_destroy, printf, emit.

Ltac wsimpl :=
  cbn [slots lts games oracle trace
       set_slots set_lts set_games set_oracle set_trace] in *.

Ltac non_null :=
  repeat match goal with
    | H : ?p <> NULL |- context [is_null ?p] => rewrite (is_null_false p H)
    | H : ?p <> NULL, H' : context [is_null ?p] |- _ =>
        rewrite (is_null_false p H) in H'
    end.

Lemma create_lt_slot_fails (r f : Z) (w : world) (o : list bool) :
  r <> NULL -> f <> NULL -> oracle w = false :: o ->
  create_lt_slot r f w = Ret NULL (set_oracle o w).
Proof.
  intros Hr Hf Ho. slot_unfold. non_null. now rewrite Ho.
Qed.

Lemma create_lt_slot_succeeds (r f : Z) (w : world) :
  r <> NULL -> f <> NULL -> hd true (oracle w) = true ->
  create_lt_slot r f w =
    Ret (fresh_ptr w)
      (World (<[fresh_ptr w := Lt_slot r f]> (slots w)) (lts w) (games w)
         (tl (oracle w)) (trace w ++ [EvPrint ("LT: created slot" +:+ LF)])).
Proof.
  intros Hr Hf Ho. slot_unfold. non_null.
  pose proof (fresh_ptr_not_null w) as Hp.
  destruct (oracle w) as [| [|] o] eqn:E; simpl in Ho; try discriminate;
    cbn [set_oracle slots lts games oracle trace]; non_null;
    unfold set_trace, set_slots; cbn; rewrite ?E; reflexivity.
Qed.

(** What the three operations on a live slot do; shared by the proofs
    below. *)
Lemma lt_slot_reset_resource_returns (p old f new : Z) (w : world) :
  p <> NULL -> new <> NULL -> slots w !! p = Some (Lt_slot old f) ->
  f <> NULL ->
  exists w1 w',
    lt_slot_reset_resource p new w = Ret tt w' /\
    call_destroy f old w = Ret tt w1 /\
    slots w1 !! p = Some (Lt_slot old f) /\
    store_slot p (Lt_slot new f) w1 = Ret tt w' /\
    trace w' = trace w ++ [EvRelease f old] /\
    releases (trace w') = releases (trace w) ++ [(old, f)] /\
    slots w' = <[p := Lt_slot new f]> (slots w) /\
    slots w' !! p = Some (Lt_slot new f) /\
    lts w' = lts w.
Proof.
  intros Hp Hnew Hs Hf.
  exists (set_trace (trace w ++ [EvRelease f old]) w).
  eexists. slot_unfold. non_null. rewrite Hs. cbn [resource resource_destroy].
  non_null. cbn.
  split; [reflexivity |]. split; [reflexivity |]. split; [exact Hs |].
  split; [reflexivity |]. split; [reflexivity |]. wsimpl.
  split; [now rewrite releases_app |].
  split; [reflexivity |]. split; [apply lookup_insert_eq | reflexivity].
Qed.

Lemma destroy_lt_slot_returns (p r f : Z) (w : world) :
  p <> NULL -> slots w !! p = Some (Lt_slot r f) -> f <> NULL ->
  exists w',
    destroy_lt_slot p w = Ret tt w' /\
    trace w' = trace w ++
      [EvRelease f r; EvFree p; EvPrint ("LT: remove slot" +:+ LF)] /\
    releases (trace w') = releases (trace w) ++ [(r, f)] /\
    slots w' = delete p (slots w) /\
    slots w' !! p = None /\
    lts w' = lts w.
Proof.
  intros Hp Hs Hf. eexists. slot_unfold. non_null. rewrite Hs.
  cbn [resource resource_destroy]. non_null. cbn. rewrite Hs. cbn.
  split; [reflexivity |]. wsimpl.
  split; [now rewrite <- !app_assoc |].
  split; [now rewrite <- !app_assoc, releases_app |].
  split; [reflexivity |]. split; [apply lookup_delete_eq | reflexivity].
Qed.

Lemma lt_slot_contains_resource_returns (p c : Z) (s : lt_slot_t) (w : world) :
  p <> NULL -> c <> NULL -> slots w !! p = Some s ->
  exists v,
    lt_slot_contains_resource p c w = Ret v w /\
    (v = 1 \/ v = 0) /\
    (v <> 0 <-> c = resource s).
Proof.
  intros Hp Hc Hs. slot_unfold. non_null. rewrite Hs.
  destruct (Z.eqb_spec (resource s) c) as [E | E].
  - exists 1. split; [reflexivity |]. split; [now left |].
    split; [intros _; now symmetry | intros _; discriminate].
  - exists 0. split; [reflexivity |]. split; [now right |].
    split; [intros H; now contradiction H | intros H; symmetry in H; contradiction].
Qed.

Lemma create_lt_slot_null_destroy (r : Z) (w : world) :
  create_lt_slot r NULL w = Abort w.
Proof. slot_unfold. destruct (is_null r); reflexivity. Qed.

(** C3, as the code has it: when the allocation of the slot fails,
    [create_lt_slot] gives the failure sentinel [NULL] back and does
    nothing else: no release function is called, the trace and both heaps
    are as before, and the resource stays with the caller. *)
Theorem create_lt_slot_alloc_failure (r f : Z) (w : world) (o : list bool) :
  r <> NULL -> f <> NULL -> oracle w = false :: o ->
  exists w',
    create_lt_slot r f w = Ret NULL w' /\
    trace w' = trace w /\
    releases (trace w') = releases (trace w) /\
    slots w' = slots w /\ lts w' = lts w.
Proof.
  intros Hr Hf Ho. exists (set_oracle o w).
  rewrite (create_lt_slot_fails r f w o) by assumption.
  repeat split.
Qed.

Lemma create_lt_slot_alloc_failure_witness :
  exists w',
    create_lt_slot 5 7 (World ∅ ∅ ∅ [false] []) = Ret NULL w' /\
    trace w' = [] /\ releases (trace w') = [] /\
    slots w' = ∅ /\ lts w' = ∅.
Proof.
  refine (create_lt_slot_alloc_failure 5 7 (World ∅ ∅ ∅ [false] []) [] _ _ _);
    [discriminate | discriminate | reflexivity].
Defined.

(** C3, as the specification words it, fails: with the allocator failing,
    [create_lt_slot 5 7] reports [NULL] but the call [7(5)] of the release
    function is not in the trace. *)
Lemma create_lt_slot_alloc_failure_no_release :
  ~ (exists w',
       create_lt_slot 5 7 (World ∅ ∅ ∅ [false] []) = Ret NULL w' /\
       In (EvRelease 7 5) (trace w')).
Proof.
  intros (w' & Hrun & Hin).
  vm_compute in Hrun. inversion Hrun; subst w'; clear Hrun.
  simpl in Hin. exact Hin.
Qed.

(** C4: on a live slot and a non-null new resource,
    [lt_slot_reset_resource] calls the slot's release function on the old
    resource exactly once, while the slot still holds the old resource,
    then stores the new resource in the same slot; the release function
    of the slot, the address of the slot and every Lifetime's sequence of
    slots are unchanged. *)
Theorem lt_slot_reset_resource_spec (p old f new : Z) (w : world) :
  p <> NULL -> new <> NULL -> slots w !! p = Some (Lt_slot old f) ->
  f <> NULL ->
  exists w1 w',
    lt_slot_reset_resource p new w = Ret tt w' /\
    call_destroy f old w = Ret tt w1 /\
    slots w1 !! p = Some (Lt_slot old f) /\
    store_slot p (Lt_slot new f) w1 = Ret tt w' /\
    trace w' = trace w ++ [EvRelease f old] /\
    releases (trace w') = releases (trace w) ++ [(old, f)] /\
    slots w' = <[p := Lt_slot new f]> (slots w) /\
    slots w' !! p = Some (Lt_slot new f) /\
    lts w' = lts w.
Proof.
  intros Hp Hnew Hs Hf.
  exists (set_trace (trace w ++ [EvRelease f old]) w).
  eexists. slot_unfold. non_null. rewrite Hs. cbn [resource resource_destroy].
  non_null. cbn.
  split; [reflexivity |]. split; [reflexivity |]. split; [exact Hs |].
  split; [reflexivity |]. split; [reflexivity |]. wsimpl.
  split; [now rewrite releases_app |].
  split; [reflexivity |]. split; [apply lookup_insert_eq | reflexivity].
Qed.

Lemma lt_slot_reset_resource_spec_witness :
  exists w1 w',
    lt_slot_reset_resource 3 11 (World {[ 3 := Lt_slot 10 20 ]} ∅ ∅ [] [])
      = Ret tt w' /\
    call_destroy 20 10 (World {[ 3 := Lt_slot 10 20 ]} ∅ ∅ [] []) = Ret tt w1 /\
    slots w1 !! 3 = Some (Lt_slot 10 20) /\
    store_slot 3 (Lt_slot 11 20) w1 = Ret tt w' /\
    trace w' = [] ++ [EvRelease 20 10] /\
    releases (trace w') = [] ++ [(10, 20)] /\
    slots w' = <[3 := Lt_slot 11 20]> {[ 3 := Lt_slot 10 20 ]} /\
    slots w' !! 3 = Some (Lt_slot 11 20) /\
    lts w' = ∅.
Proof.
  refine (lt_slot_reset_resource_spec 3 10 20 11
            (World {[ 3 := Lt_slot 10 20 ]} ∅ ∅ [] []) _ _ _ _);
    [discriminate | discriminate | reflexivity | discriminate].
Defined.

(** C6: on a live slot, [destroy_lt_slot] calls the slot's release
    function on the stored resource exactly once and then frees the
    storage of the slot, which is live no more. *)
Theorem destroy_lt_slot_spec (p r f : Z) (w : world) :
  p <> NULL -> slots w !! p = Some (Lt_slot r f) -> f <> NULL ->
  exists w',
    destroy_lt_slot p w = Ret tt w' /\
    trace w' = trace w ++
      [EvRelease f r; EvFree p; EvPrint ("LT: remove slot" +:+ LF)] /\
    releases (trace w') = releases (trace w) ++ [(r, f)] /\
    slots w' = delete p (slots w) /\
    slots w' !! p = None /\
    lts w' = lts w.
Proof.
  intros Hp Hs Hf. eexists. slot_unfold. non_null. rewrite Hs.
  cbn [resource resource_destroy]. non_null. cbn. rewrite Hs. cbn.
  split; [reflexivity |]. wsimpl.
  split; [now rewrite <- !app_assoc |].
  split; [now rewrite <- !app_assoc, releases_app |].
  split; [reflexivity |]. split; [apply lookup_delete_eq | reflexivity].
Qed.

Lemma destroy_lt_slot_spec_witness :
  exists w',
    destroy_lt_slot 3 (World {[ 3 := Lt_slot 10 20 ]} ∅ ∅ [] []) = Ret tt w' /\
    trace w' = [] ++
      [EvRelease 20 10; EvFree 3; EvPrint ("LT: remove slot" +:+ LF)] /\
    releases (trace w') = [] ++ [(10, 20)] /\
    slots w' = delete 3 {[ 3 := Lt_slot 10 20 ]} /\
    slots w' !! 3 = None /\
    lts w' = ∅.
Proof.
  refine (destroy_lt_slot_spec 3 10 20
            (World {[ 3 := Lt_slot 10 20 ]} ∅ ∅ [] []) _ _ _);
    [discriminate | reflexivity | discriminate].
Defined.

(** C7: on a live slot and a non-null candidate,
    [lt_slot_contains_resource] changes nothing and returns a non-zero
    value exactly when the candidate is the very address stored in the
    slot. *)
Theorem lt_slot_contains_resource_spec (p c : Z) (s : lt_slot_t) (w : world) :
  p <> NULL -> c <> NULL -> slots w !! p = Some s ->
  exists v,
    lt_slot_contains_resource p c w = Ret v w /\
    (v = 1 \/ v = 0) /\
    (v <> 0 <-> c = resource s).
Proof.
  intros Hp Hc Hs. slot_unfold. non_null. rewrite Hs.
  destruct (Z.eqb_spec (resource s) c) as [E | E].
  - exists 1. split; [reflexivity |]. split; [now left |].
    split; [intros _; now symmetry | intros _; discriminate].
  - exists 0. split; [reflexivity |]. split; [now right |].
    split; [intros H; now contradiction H | intros H; symmetry in H; contradiction].
Qed.

Lemma lt_slot_contains_resource_spec_witness :
  exists v,
    lt_slot_contains_resource 3 10 (World {[ 3 := Lt_slot 10 20 ]} ∅ ∅ [] [])
      = Ret v (World {[ 3 := Lt_slot 10 20 ]} ∅ ∅ [] []) /\
    (v = 1 \/ v = 0) /\
    (v <> 0 <-> 10 = resource (Lt_slot 10 20)).
Proof.
  refine (lt_slot_contains_resource_spec 3 10 (Lt_slot 10 20)
            (World {[ 3 := Lt_slot 10 20 ]} ∅ ∅ [] []) _ _ _);
    [discriminate | discriminate | reflexivity].
Defined.

(** C10: for every slot pointer, the ownership test with a null candidate
    aborts on its assertion; it does not return false. *)
Theorem lt_slot_contains_resource_null_aborts (p : Z) (w : world) :
  lt_slot_contains_resource p NULL w = Abort w.
Proof.
  slot_unfold. destruct (is_null p); reflexivity.
Qed.

(** C8: a null resource or a null release function given to
    [create_lt_slot], and a null new resource given to
    [lt_slot_reset_resource], abort; with non-null arguments neither of
    them aborts, [create_lt_slot] returns (a slot or the allocation
    failure), and [lt_slot_reset_resource] on a live slot returns. *)
Theorem slot_null_preconditions :
  (forall f w, create_lt_slot NULL f w = Abort w) /\
  (forall r w, create_lt_slot r NULL w = Abort w) /\
  (forall p w, lt_slot_reset_resource p NULL w = Abort w) /\
  (forall r f w, r <> NULL -> f <> NULL ->
     exists v w', create_lt_slot r f w = Ret v w') /\
  (forall p new w, p <> NULL -> new <> NULL ->
     forall w', lt_slot_reset_resource p new w <> Abort w') /\
  (forall p new s w, p <> NULL -> new <> NULL ->
     slots w !! p = Some s -> resource_destroy s <> NULL ->
     exists w', lt_slot_reset_resource p new w = Ret tt w').
Proof.
  refine (conj _ (conj _ (conj _ (conj _ (conj _ _))))).
  - intros f w. reflexivity.
  - intros r w. slot_unfold. destruct (is_null r); reflexivity.
  - intros p w. slot_unfold. destruct (is_null p); reflexivity.
  - intros r f w Hr Hf. slot_unfold. non_null.
    destruct (oracle w) as [| [|] o]; cbn;
      rewrite ?(is_null_false _ (fresh_ptr_not_null w)); eauto.
  - intros p new w Hp Hnew w'. slot_unfold. non_null.
    destruct (slots w !! p) as [s |]; [| discriminate].
    destruct (is_null (resource_destroy s)); discriminate.
  - intros p new [old f] w Hp Hnew Hs Hf. cbn in Hf.
    destruct (lt_slot_reset_resource_returns p old f new w Hp Hnew Hs Hf)
      as (w1 & w' & H & _).
    now exists w'.
Qed.

Lemma slot_null_preconditions_witness :
  create_lt_slot NULL 7 (World ∅ ∅ ∅ [] []) = Abort (World ∅ ∅ ∅ [] []) /\
  create_lt_slot 5 NULL (World ∅ ∅ ∅ [] []) = Abort (World ∅ ∅ ∅ [] []) /\
  lt_slot_reset_resource 3 NULL (World {[ 3 := Lt_slot 10 20 ]} ∅ ∅ [] [])
    = Abort (World {[ 3 := Lt_slot 10 20 ]} ∅ ∅ [] []) /\
  (exists v w', create_lt_slot 5 7 (World ∅ ∅ ∅ [] []) = Ret v w') /\
  (exists w', lt_slot_reset_resource 3 11
                (World {[ 3 := Lt_slot 10 20 ]} ∅ ∅ [] []) = Ret tt w').
Proof.
  destruct slot_null_preconditions as (H1 & H2 & H3 & H4 & _ & H6).
  split; [exact (H1 7 (World ∅ ∅ ∅ [] [])) |].
  split; [exact (H2 5 (World ∅ ∅ ∅ [] [])) |].
  split; [exact (H3 3 (World {[ 3 := Lt_slot 10 20 ]} ∅ ∅ [] [])) |].
  split.
  - refine (H4 5 7 (World ∅ ∅ ∅ [] []) _ _); discriminate.
  - refine (H6 3 11 (Lt_slot 10 20)
              (World {[ 3 := Lt_slot 10 20 ]} ∅ ∅ [] []) _ _ _ _);
      [discriminate | discriminate | reflexivity | discriminate].
Defined.

(** ** The Lifetime *)

Ltac lt_unfold :=
  unfold PUSH_LT, RESET_LT, RETURN_LT, lt_push, lt_reset, destroy_lt,
    create_lt, malloc_lt, store_frames, load_frames, free_lt, construct.

Lemma lt_push_null (lt f : Z) (w : world) : lt_push lt NULL f w = Ret NULL w.
Proof. reflexivity. Qed.

Lemma lt_push_fails (lt r f : Z) (w : world) (o : list bool) :
  r <> NULL -> f <> NULL -> oracle w = false :: o ->
  lt_push lt r f w =
    Ret NULL (set_trace (trace w ++ [EvRelease f r]) (set_oracle o w)).
Proof.
  intros Hr Hf Ho. unfold lt_push. non_null. unfold bind.
  rewrite (create_lt_slot_fails r f w o) by assumption.
  cbn. unfold call_destroy. non_null. reflexivity.
Qed.

Lemma lt_push_succeeds (lt r f : Z) (w : world) (fs : list Z) :
  r <> NULL -> f <> NULL -> hd true (oracle w) = true ->
  lts w !! lt = Some fs ->
  lt_push lt r f w =
    Ret r
      (World (<[fresh_ptr w := Lt_slot r f]> (slots w))
         (<[lt := fs ++ [fresh_ptr w]]> (lts w)) (games w)
         (tl (oracle w)) (trace w ++ [EvPrint ("LT: created slot" +:+ LF)])).
Proof.
  intros Hr Hf Ho Hlt. unfold lt_push. non_null. unfold bind.
  rewrite (create_lt_slot_succeeds r f w) by assumption.
  rewrite (is_null_false _ (fresh_ptr_not_null w)).
  unfold load_frames, store_frames, ret. wsimpl. now rewrite Hlt.
Qed.

(** A call of [lt_push] that returns a non-null value went through the
    success path. *)
Lemma lt_push_inv (lt r f v : Z) (w w' : world) :
  lt_push lt r f w = Ret v w' -> v <> NULL ->
  v = r /\ r <> NULL /\ f <> NULL /\ hd true (oracle w) = true /\
  exists fs, lts w !! lt = Some fs.
Proof.
  intros Hrun Hv.
  destruct (decide (r = NULL)) as [-> | Hr].
  { rewrite lt_push_null in Hrun. inversion Hrun; subst; congruence. }
  destruct (decide (f = NULL)) as [-> | Hf].
  { unfold lt_push, bind in Hrun. non_null.
    now rewrite create_lt_slot_null_destroy in Hrun. }
  destruct (oracle w) as [| [|] o] eqn:Ho.
  - destruct (lts w !! lt) as [fs |] eqn:Hlt.
    + rewrite (lt_push_succeeds lt r f w fs) in Hrun
        by (try assumption; now rewrite Ho).
      inversion Hrun; subst. cbn. eauto 10.
    + exfalso. unfold lt_push, bind in Hrun. non_null.
      rewrite (create_lt_slot_succeeds r f w) in Hrun
        by (try assumption; now rewrite Ho).
      rewrite (is_null_false _ (fresh_ptr_not_null w)) in Hrun.
      unfold load_frames in Hrun. wsimpl. now rewrite Hlt in Hrun.
  - destruct (lts w !! lt) as [fs |] eqn:Hlt.
    + rewrite (lt_push_succeeds lt r f w fs) in Hrun
        by (try assumption; now rewrite Ho).
      inversion Hrun; subst. cbn. eauto 10.
    + exfalso. unfold lt_push, bind in Hrun. non_null.
      rewrite (create_lt_slot_succeeds r f w) in Hrun
        by (try assumption; now rewrite Ho).
      rewrite (is_null_false _ (fresh_ptr_not_null w)) in Hrun.
      unfold load_frames in Hrun. wsimpl. now rewrite Hlt in Hrun.
  - rewrite (lt_push_fails lt r f w o) in Hrun by assumption.
    inversion Hrun; subst; congruence.
Qed.

(** C2: when the allocation of the slot fails, [lt_push] calls
    [release(resource)] exactly once, at once, returns the failure signal
    [NULL] and leaves every Lifetime and every slot as it was; when the
    allocation succeeds, it returns the resource unchanged, now held by a
    new slot at the end of the Lifetime's sequence, and calls no release
    function. *)
Theorem lt_push_spec (lt r f : Z) (w : world) :
  r <> NULL -> f <> NULL ->
  (forall o, oracle w = false :: o ->
     exists w',
       lt_push lt r f w = Ret NULL w' /\
       trace w' = trace w ++ [EvRelease f r] /\
       releases (trace w') = releases (trace w) ++ [(r, f)] /\
       lts w' = lts w /\ slots w' = slots w) /\
  (forall fs, hd true (oracle w) = true -> lts w !! lt = Some fs ->
     exists p w',
       lt_push lt r f w = Ret r w' /\
       lts w' !! lt = Some (fs ++ [p]) /\
       slots w !! p = None /\
       slots w' !! p = Some (Lt_slot r f) /\
       releases (trace w') = releases (trace w)).
Proof.
  intros Hr Hf. split.
  - intros o Ho. eexists. split; [apply (lt_push_fails lt r f w o); assumption |]. wsimpl.
    split; [reflexivity |]. split; [now rewrite releases_app |]. now split.
  - intros fs Ho Hlt. exists (fresh_ptr w). eexists.
    split; [apply (lt_push_succeeds lt r f w fs); assumption |]. wsimpl.
    split; [apply lookup_insert_eq |].
    split; [apply fresh_ptr_slots |].
    split; [apply lookup_insert_eq |].
    rewrite releases_app. cbn. now rewrite app_nil_r.
Qed.

Lemma lt_push_spec_witness :
  (exists w',
     lt_push 1 11 21 (World {[ 3 := Lt_slot 10 20 ]} {[ 1 := [3] ]} ∅ [false] [])
       = Ret NULL w' /\
     trace w' = [EvRelease 21 11] /\
     lts w' = {[ 1 := [3] ]} /\ slots w' = {[ 3 := Lt_slot 10 20 ]}) /\
  (exists p w',
     lt_push 1 11 21 (World {[ 3 := Lt_slot 10 20 ]} {[ 1 := [3] ]} ∅ [] [])
       = Ret 11 w' /\
     lts w' !! 1 = Some ([3] ++ [p]) /\
     slots w' !! p = Some (Lt_slot 11 21)).
Proof.
  split.
  - destruct (lt_push_spec 1 11 21
                (World {[ 3 := Lt_slot 10 20 ]} {[ 1 := [3] ]} ∅ [false] []))
      as [H _]; [discriminate | discriminate |].
    destruct (H [] eq_refl) as (w' & H1 & H2 & _ & H3 & H4).
    exists w'. repeat split; assumption.
  - destruct (lt_push_spec 1 11 21
                (World {[ 3 := Lt_slot 10 20 ]} {[ 1 := [3] ]} ∅ [] []))
      as [_ H]; [discriminate | discriminate |].
    destruct (H [3] eq_refl eq_refl) as (p & w' & H1 & H2 & _ & H3 & _).
    exists p, w'. repeat split; assumption.
Defined.

(** *** Teardown *)

Lemma slot_holds_frame (w w' : world) (p : Z) (rf : Z * Z) :
  slots w' !! p = slots w !! p -> slot_holds w p rf -> slot_holds w' p rf.
Proof. intros E (Hp & Hs & Hf). repeat split; [done | congruence | done]. Qed.

Lemma Forall2_impl_elem {A B} (P Q : A -> B -> Prop) (l : list A) (k : list B) :
  Forall2 P l k -> (forall x y, x ∈ l -> P x y -> Q x y) -> Forall2 Q l k.
Proof.
  induction 1 as [| x y l k Hxy Hlk IH]; intros HPQ; constructor.
  - apply HPQ; [left | exact Hxy].
  - apply IH. intros x' y' Hin. apply HPQ. now right.
Qed.

(** Destroying a list of distinct live slots releases their resources in
    the order of the list, each once, and touches no other slot. *)
Lemma destroy_slots_spec (ps : list Z) :
  forall (rs : list (Z * Z)) (w : world),
    NoDup ps -> Forall2 (slot_holds w) ps rs ->
    exists w' t,
      destroy_slots ps w = Ret tt w' /\
      trace w' = trace w ++ t /\
      releases t = rs /\
      lts w' = lts w /\ oracle w' = oracle w /\
      forall q, q ∉ ps -> slots w' !! q = slots w !! q.
Proof.
  induction ps as [| p ps IH]; intros rs w Hnd Hall.
  - apply Forall2_nil_inv_l in Hall as ->.
    exists w, []. cbn. rewrite app_nil_r. repeat split.
  - apply Forall2_cons_inv_l in Hall as ([r f] & rs' & Hp & Hall & ->).
    apply NoDup_cons in Hnd as [Hnotin Hnd].
    destruct Hp as (Hp & Hs & Hf). cbn in Hs, Hf.
    destruct (destroy_lt_slot_returns p r f w Hp Hs Hf)
      as (w1 & Hrun & Htr & _ & Hsl & _ & Hlt).
    assert (Hframe : Forall2 (slot_holds w1) ps rs').
    { apply (Forall2_impl_elem (slot_holds w)); [exact Hall |].
      intros q rf Hq. apply slot_holds_frame.
      rewrite Hsl. apply lookup_delete_ne. intros ->. contradiction. }
    destruct (IH rs' w1 Hnd Hframe)
      as (w' & t & Hrun' & Htr' & Hrel & Hlt' & Ho' & Hsl').
    exists w', ([EvRelease f r; EvFree p; EvPrint ("LT: remove slot" +:+ LF)] ++ t).
    cbn [destroy_slots]. unfold bind at 1. rewrite Hrun.
    split; [exact Hrun' |].
    split; [rewrite Htr', Htr; now rewrite <- app_assoc |].
    split; [cbn; now rewrite Hrel |].
    assert (Ho1 : oracle w1 = oracle w).
    { revert Hrun. slot_unfold. non_null. rewrite Hs. cbn [resource resource_destroy].
      non_null. cbn. rewrite Hs. cbn. now intros [= <-]. }
    split; [congruence |]. split; [congruence |].
    intros q Hq. apply not_elem_of_cons in Hq as [Hqp Hq].
    rewrite (Hsl' q Hq), Hsl. now apply lookup_delete_ne.
Qed.

Lemma destroy_lt_spec (lt : Z) (rs : list (Z * Z)) (w : world) :
  lt_holds w lt rs ->
  exists w' t,
    destroy_lt lt w = Ret tt w' /\
    trace w' = trace w ++ t /\
    releases t = rev rs /\
    lts w' = delete lt (lts w) /\
    oracle w' = oracle w.
Proof.
  intros (ps & Hlt & Hnd & Hall).
  assert (Hnd' : NoDup (rev ps)).
  { rewrite rev_alt. change (NoDup (reverse ps)). now rewrite reverse_Permutation. }
  assert (Hall' : Forall2 (slot_holds w) (rev ps) (rev rs)).
  { rewrite !rev_alt. exact (Forall2_reverse _ _ _ Hall). }
  destruct (destroy_slots_spec (rev ps) (rev rs) w Hnd' Hall')
    as (w1 & t & Hrun & Htr & Hrel & Hlt1 & Ho1 & _).
  exists (set_trace (trace w1 ++ [EvFree lt]) (set_lts (delete lt (lts w1)) w1)),
         (t ++ [EvFree lt]).
  unfold destroy_lt, bind, load_frames, free_lt. rewrite Hlt, Hrun, Hlt1, Hlt.
  wsimpl. split; [reflexivity |].
  split; [now rewrite Htr, <- app_assoc |].
  split; [rewrite releases_app; cbn; now rewrite app_nil_r |].
  now repeat split.
Qed.

(** A successful [lt_push] extends what the Lifetime holds at the end. *)
Lemma lt_push_holds (lt r f : Z) (rs : list (Z * Z)) (w w' : world) :
  lt_holds w lt rs -> lt_push lt r f w = Ret r w' -> r <> NULL ->
  lt_holds w' lt (rs ++ [(r, f)]).
Proof.
  intros (ps & Hlt & Hnd & Hall) Hrun Hr.
  destruct (lt_push_inv lt r f r w w' Hrun Hr) as (_ & _ & Hf & Ho & fs & Hfs).
  rewrite (lt_push_succeeds lt r f w fs Hr Hf Ho Hfs) in Hrun.
  injection Hrun as <-. rewrite Hlt in Hfs. injection Hfs as <-.
  assert (Hfresh : fresh_ptr w ∉ ps).
  { intros Hin. apply list_elem_of_lookup in Hin as [i Hi].
    destruct (Forall2_lookup_l _ _ _ i _ Hall Hi) as (rf & _ & _ & Hs & _).
    now rewrite fresh_ptr_slots in Hs. }
  exists (ps ++ [fresh_ptr w]). wsimpl.
  split; [apply lookup_insert_eq |].
  split.
  { apply NoDup_app. split; [exact Hnd |]. split; [| apply NoDup_singleton].
    intros x Hx Hx'. apply list_elem_of_singleton in Hx' as ->. contradiction. }
  apply Forall2_app.
  - apply (Forall2_impl_elem (slot_holds w)); [exact Hall |].
    intros q rf Hq. apply slot_holds_frame. wsimpl.
    apply lookup_insert_ne. intros <-. contradiction.
  - constructor; [| constructor].
    split; [apply fresh_ptr_not_null |]. split; [| exact Hf].
    wsimpl. apply lookup_insert_eq.
Qed.

Lemma tracked_holds (lt : Z) (w0 : world) (rs : list (Z * Z)) (w1 : world) :
  tracked lt w0 rs w1 ->
  forall rs0, lt_holds w0 lt rs0 -> lt_holds w1 lt (rs0 ++ rs).
Proof.
  induction 1 as [w | w rs w1 r f w2 _ IH Hrun Hr]; intros rs0 H0.
  - now rewrite app_nil_r.
  - rewrite app_assoc. eapply lt_push_holds; [apply IH, H0 | exact Hrun | exact Hr].
Qed.

(** With an allocator that does not fail, any sequence of non-null
    resources with non-null release functions can be tracked. *)
Lemma tracked_exists (lt : Z) (rs : list (Z * Z)) (w0 : world) :
  is_Some (lts w0 !! lt) -> oracle w0 = [] ->
  Forall (fun rf => fst rf <> NULL /\ snd rf <> NULL) rs ->
  exists w1, tracked lt w0 rs w1 /\ is_Some (lts w1 !! lt) /\ oracle w1 = [].
Proof.
  intros Hlt Ho. induction rs as [| [r f] rs IH] using rev_ind; intros Hall.
  - exists w0. split; [constructor | now split].
  - apply Forall_app in Hall as [Hall Hrf].
    apply Forall_singleton in Hrf as [Hr Hf]. cbn in Hr, Hf.
    destruct (IH Hall) as (w1 & Htr & [fs Hfs] & Ho1).
    eexists. split.
    + eapply tracked_push; [exact Htr | | exact Hr].
      apply (lt_push_succeeds lt r f w1 fs); [done | done | now rewrite Ho1 | done].
    + wsimpl. split; [rewrite lookup_insert_eq; eauto | now rewrite Ho1].
Qed.

(** C1: after any sequence of successful [lt_push] calls on a Lifetime
    that was empty, [destroy_lt] returns, and the release calls it makes
    are exactly the tracked (resource, release function) pairs in the
    reverse order of tracking, one call for each; the Lifetime is live no
    more.  On an empty Lifetime it makes no release call. *)
Theorem destroy_lt_lifo (lt : Z) (w0 : world) (rs : list (Z * Z)) (w1 : world) :
  lts w0 !! lt = Some [] -> tracked lt w0 rs w1 ->
  exists w2 t,
    destroy_lt lt w1 = Ret tt w2 /\
    trace w2 = trace w1 ++ t /\
    releases t = rev rs /\
    length (releases t) = length rs /\
    lts w2 !! lt = None.
Proof.
  intros Hlt Htr.
  assert (H0 : lt_holds w0 lt []).
  { exists []. split; [exact Hlt |]. split; constructor. }
  pose proof (tracked_holds lt w0 rs w1 Htr [] H0) as H1. cbn in H1.
  destruct (destroy_lt_spec lt rs w1 H1) as (w2 & t & Hrun & Htrace & Hrel & Hl & _).
  exists w2, t. split; [exact Hrun |]. split; [exact Htrace |].
  split; [exact Hrel |]. split; [now rewrite Hrel, length_rev |].
  rewrite Hl. apply lookup_delete_eq.
Qed.

Lemma destroy_lt_lifo_witness :
  exists w1 w2 t,
    tracked 1 (World ∅ {[ 1 := [] ]} ∅ [] []) [(10, 20); (11, 21); (12, 22)] w1 /\
    destroy_lt 1 w1 = Ret tt w2 /\
    trace w2 = trace w1 ++ t /\
    releases t = [(12, 22); (11, 21); (10, 20)].
Proof.
  assert (Ht : exists w1,
             tracked 1 (World ∅ {[ 1 := [] ]} ∅ [] [])
               [(10, 20); (11, 21); (12, 22)] w1).
  { destruct (tracked_exists 1 [(10, 20); (11, 21); (12, 22)]
                (World ∅ {[ 1 := [] ]} ∅ [] [])) as (w1 & Ht & _).
    - exists []. apply lookup_singleton_eq.
    - reflexivity.
    - repeat constructor; discriminate.
    - now exists w1. }
  destruct Ht as [w1 Ht].
  destruct (destroy_lt_lifo 1 (World ∅ {[ 1 := [] ]} ∅ [] [])
              [(10, 20); (11, 21); (12, 22)] w1
              (lookup_singleton_eq 1 []) Ht)
    as (w2 & t & Hrun & Htrace & Hrel & _ & _).
  exists w1, w2, t. repeat split; assumption.
Defined.

(** *** Replacing a resource in place *)

Lemma find_owner_skip (w : world) (old : Z) (pre rest : list Z) :
  old <> NULL -> Forall (not_owner w old) pre ->
  find_owner (pre ++ rest) old w = find_owner rest old w.
Proof.
  intros Hold. induction 1 as [| p pre (Hp & s & Hs & Hne) _ IH]; [done |].
  cbn [app find_owner]. unfold bind at 1.
  destruct (lt_slot_contains_resource_returns p old s w Hp Hold Hs)
    as (v & -> & _ & Hv).
  destruct (Z.eqb_spec v 0) as [_ | Hv0]; [exact IH |].
  apply Hv in Hv0. congruence.
Qed.


Lemma find_owner_some (w : world) (old f slot : Z) (pre post : list Z) :
  old <> NULL -> Forall (not_owner w old) pre -> slot <> NULL ->
  slots w !! slot = Some (Lt_slot old f) ->
  find_owner (pre ++ slot :: post) old w = Ret (Some slot) w.
Proof.
  intros Hold Hall Hslot Hs. rewrite (find_owner_skip w old pre) by assumption.
  cbn [find_owner]. unfold bind.
  destruct (lt_slot_contains_resource_returns slot old _ w Hslot Hold Hs)
    as (v & -> & _ & Hv).
  destruct (Z.eqb_spec v 0) as [-> | _]; [| reflexivity].
  exfalso. cbn in Hv. destruct Hv as [_ Hv]. now apply Hv.
Qed.

(** The ownership test looks at the slots only. *)
Lemma not_owner_frame (w w' : world) (old : Z) (ps : list Z) :
  slots w' = slots w -> Forall (not_owner w old) ps ->
  Forall (not_owner w' old) ps.
Proof.
  intros Hs H. eapply Forall_impl; [exact H |].
  intros p (Hp & s & Hsl & Hne).
  split; [exact Hp |]. exists s. now rewrite Hs.
Qed.



(** ** [create_game] *)

Lemma wp_bind {A B} (m : M A) (k : A -> M B) (Q : B -> world -> Prop) (w : world) :
  wp m (fun a w1 => wp (k a) Q w1) w -> wp (bind m k) Q w.
Proof.
  intros (a & w1 & Hm & b & w2 & Hk & HQ). exists b, w2.
  unfold bind. now rewrite Hm.
Qed.

Lemma wp_ret {A} (a : A) (Q : A -> world -> Prop) (w : world) :
  Q a w -> wp (ret a) Q w.
Proof. intros HQ. now exists a, w. Qed.

Lemma wp_construct (c : ctor) (args : list Z) (r : Z)
    (Q : Z -> world -> Prop) (w : world) :
  Q r (set_trace (trace w ++ [EvConstruct c args]) w) ->
  wp (construct c args r) Q w.
Proof. intros HQ. eexists _, _. split; [reflexivity | exact HQ]. Qed.

Lemma wp_write_game (g : Z) (F : Game_field) (v : Z) (gm : Game)
    (Q : unit -> world -> Prop) (w : world) :
  games w !! g = Some gm ->
  Q tt (set_games (<[g := Game_write F v gm]> (games w)) w) ->
  wp (write_game g F v) Q w.
Proof.
  intros Hg HQ. exists tt, (set_games (<[g := Game_write F v gm]> (games w)) w).
  unfold write_game. rewrite Hg. split; [reflexivity | exact HQ].
Qed.

Lemma wp_read_game (g : Z) (F : Game_field) (v : Z) (gm : Game)
    (Q : Z -> world -> Prop) (w : world) :
  games w !! g = Some gm -> gm F = Some v -> Q v w ->
  wp (read_game g F) Q w.
Proof.
  intros Hg HF HQ. exists v, w. split; [| exact HQ]. unfold read_game.
  destruct (games w !! g) as [gm' |]; [| discriminate].
  injection Hg as ->. now rewrite HF.
Qed.

Lemma lt_holds_frame (w w' : world) (lt : Z) (rs : list (Z * Z)) :
  slots w' = slots w -> lts w' = lts w -> lt_holds w lt rs -> lt_holds w' lt rs.
Proof.
  intros Hs Hl (ps & Hlt & Hnd & Hall). exists ps.
  split; [congruence |]. split; [exact Hnd |].
  apply (Forall2_impl_elem (slot_holds w)); [exact Hall |].
  intros q rf _. apply slot_holds_frame. congruence.
Qed.

Lemma hd_skipn (n : nat) (o : list bool) : hd true (skipn n o) = nth n o true.
Proof.
  revert o. induction n as [| n IH]; intros [| b o]; cbn;
    solve [reflexivity | apply IH].
Qed.

Lemma tl_skipn (n : nat) (o : list bool) : tl (skipn n o) = skipn (S n) o.
Proof.
  revert o. induction n as [| n IH]; intros [| b o]; cbn;
    solve [reflexivity | now destruct o | apply IH].
Qed.

Lemma hd_false (o : list bool) : hd true o = false -> exists o', o = false :: o'.
Proof. destruct o as [| [|] o']; cbn; try discriminate. eauto. Qed.

Lemma wp_assert (p : Z) (Q : unit -> world -> Prop) (w : world) :
  p <> NULL -> Q tt w -> wp (assert p) Q w.
Proof.
  intros Hp HQ. exists tt, w. unfold assert. non_null. now split.
Qed.

Lemma lifetime_inv_holds (base : gmap Z (list Z)) (lt : Z) (rs : list (Z * Z))
    (w : world) :
  lifetime_inv base lt rs w -> lt_holds w lt rs.
Proof.
  intros (ps & Hl & Hnd & Hall). exists ps.
  split; [rewrite Hl; apply lookup_insert_eq | now split].
Qed.

Lemma lifetime_inv_frame (base : gmap Z (list Z)) (lt : Z) (rs : list (Z * Z))
    (w w' : world) :
  slots w' = slots w -> lts w' = lts w ->
  lifetime_inv base lt rs w -> lifetime_inv base lt rs w'.
Proof.
  intros Hs Hl (ps & Hlt & Hnd & Hall). exists ps.
  split; [congruence |]. split; [exact Hnd |].
  apply (Forall2_impl_elem (slot_holds w)); [exact Hall |].
  intros q rf _. apply slot_holds_frame. congruence.
Qed.

(** Tracking under the invariant: either nothing is registered and [NULL]
    comes back (the resource was [NULL], or the slot could not be
    allocated), or the resource is registered last and comes back. *)
Lemma wp_PUSH_LT (base : gmap Z (list Z)) (lt r f : Z) (rs : list (Z * Z))
    (Q : Z -> world -> Prop) (w : world) :
  lifetime_inv base lt rs w -> f <> NULL ->
  (r = NULL \/ hd true (oracle w) = false ->
   forall w', lifetime_inv base lt rs w' -> games w' = games w -> Q NULL w') ->
  (r <> NULL -> hd true (oracle w) = true ->
   forall w', lifetime_inv base lt (rs ++ [(r, f)]) w' ->
              games w' = games w -> oracle w' = tl (oracle w) -> Q r w') ->
  wp (PUSH_LT lt r f) Q w.
Proof.
  intros Hinv Hf Hfail Hok. unfold PUSH_LT.
  destruct (decide (r = NULL)) as [-> | Hr].
  { exists NULL, w. split; [apply lt_push_null |]. apply Hfail; auto. }
  destruct (hd true (oracle w)) eqn:Ho.
  - destruct Hinv as (ps & Hl & Hnd & Hall).
    assert (Hlt : lts w !! lt = Some ps) by (rewrite Hl; apply lookup_insert_eq).
    pose proof (lt_push_succeeds lt r f w ps Hr Hf Ho Hlt) as Hrun.
    eexists _, _. split; [exact Hrun |].
    apply Hok; try done.
    assert (Hh : lt_holds w lt rs) by (exists ps; now repeat split).
    destruct (lt_push_holds lt r f rs w _ Hh Hrun Hr) as (ps' & Hl' & Hnd' & Hall').
    exists ps'. wsimpl. split; [| now split].
    rewrite lookup_insert_eq in Hl'. injection Hl' as <-.
    rewrite Hl. apply insert_insert_eq.
  - destruct (hd_false _ Ho) as [o Ho'].
    eexists _, _. split; [apply (lt_push_fails lt r f w o); assumption |].
    apply Hfail; [now right | | reflexivity].
    now apply (lifetime_inv_frame base lt rs w).
Qed.

Lemma Game_write_same (F : Game_field) (v : Z) (gm : Game) :
  Game_write F v gm F = Some v.
Proof. unfold Game_write. now destruct F. Qed.

Section Create_game_proof.

Variable env : ctor -> Z.
Variables free destroy_broadcast destroy_sprite_font destroy_level_picker
          destroy_sound_samples destroy_camera destroy_console
          SDL_DestroyTexture : Z.
Variable w0 : world.

Let lt := fresh_ptr w0.
Let g := env Nth_alloc.
Let Post := create_game_post env free destroy_broadcast destroy_sprite_font
              destroy_level_picker destroy_sound_samples destroy_camera
              destroy_console SDL_DestroyTexture w0.
Let all_ok := Forall (fun c => env c <> NULL) checked_ctors /\
              allocs_ok 8 (oracle w0).

(** A failed check: the Lifetime is destroyed and [NULL] returned. *)
Lemma wp_RETURN_LT_NULL (rs : list (Z * Z)) (w : world) :
  lifetime_inv (lts w0) lt rs w -> ~ all_ok ->
  wp (RETURN_LT lt NULL) Post w.
Proof.
  intros Hinv Hnot.
  destruct (destroy_lt_spec lt rs w (lifetime_inv_holds _ _ _ _ Hinv))
    as (w' & t & Hrun & _ & _ & Hl & _).
  exists NULL, w'. split.
  { unfold RETURN_LT, bind. now rewrite Hrun. }
  split; [| split].
  - intros _. rewrite Hl. destruct Hinv as (ps & -> & _).
    apply delete_insert_id, fresh_ptr_lts.
  - split; [intros H; now contradiction H | intros H; contradiction].
  - intros H. now contradiction H.
Qed.

(** One checked acquisition: construct, track, store in the member,
    test the member. *)
Lemma wp_checked (c : ctor) (args : list Z) (f : Z) (F : Game_field)
    (K : Z -> M Z) (rs : list (Z * Z)) (gm : Game) (k : nat) (w : world) :
  In c checked_ctors -> (S k < 8)%nat -> f <> NULL ->
  lifetime_inv (lts w0) lt rs w ->
  oracle w = skipn (S k) (oracle w0) ->
  games w !! g = Some gm ->
  (env c <> NULL -> nth (S k) (oracle w0) true = true ->
   forall w',
     lifetime_inv (lts w0) lt (rs ++ [(env c, f)]) w' ->
     oracle w' = skipn (S (S k)) (oracle w0) ->
     games w' !! g = Some (Game_write F (env c) gm) ->
     wp (K (env c)) Post w') ->
  wp (let* r := construct c args (env c) in
      let* r' := PUSH_LT lt r f in
      write_game g F r' >>
      let* x := read_game g F in
      if is_null x then RETURN_LT lt NULL else K x) Post w.
Proof.
  intros Hc Hk Hf Hinv Ho Hg HK.
  apply wp_bind, wp_construct, wp_bind.
  apply (wp_PUSH_LT (lts w0) lt (env c) f rs).
  - now apply (lifetime_inv_frame (lts w0) lt rs w).
  - exact Hf.
  - intros Hwhy w' Hinv' Hg'. wsimpl.
    apply wp_bind. apply (wp_write_game g F NULL gm); [congruence |].
    apply wp_bind.
    apply (wp_read_game g F NULL (Game_write F NULL gm));
      [wsimpl; apply lookup_insert_eq | apply Game_write_same |].
    change (is_null NULL) with true. cbv iota.
    apply (wp_RETURN_LT_NULL rs); [now apply (lifetime_inv_frame _ _ _ w') |].
    intros [Hall Hal]. destruct Hwhy as [Hnull | Hhd].
    + rewrite Forall_forall in Hall.
      apply (Hall c); [now apply list_elem_of_In | exact Hnull].
    + rewrite Ho, hd_skipn, (Hal (S k) Hk) in Hhd. discriminate.
  - intros Hr Hhd w' Hinv' Hg' Ho'. wsimpl.
    apply wp_bind. apply (wp_write_game g F (env c) gm); [congruence |].
    apply wp_bind.
    apply (wp_read_game g F (env c) (Game_write F (env c) gm));
      [wsimpl; apply lookup_insert_eq | apply Game_write_same |].
    non_null. apply HK.
    + exact Hr.
    + now rewrite Ho, hd_skipn in Hhd.
    + now apply (lifetime_inv_frame _ _ _ w').
    + wsimpl. now rewrite Ho', Ho, tl_skipn.
    + wsimpl. apply lookup_insert_eq.
Qed.

Lemma wp_create_lt (Q : Z -> world -> Prop) (w : world) :
  (hd true (oracle w) = false -> Q NULL (set_oracle (tl (oracle w)) w)) ->
  (hd true (oracle w) = true ->
   Q (fresh_ptr w)
     (World (slots w) (<[fresh_ptr w := []]> (lts w)) (games w)
        (tl (oracle w)) (trace w))) ->
  wp create_lt Q w.
Proof.
  intros Hfail Hok. unfold wp, create_lt, bind, malloc_lt, store_frames, ret.
  pose proof (fresh_ptr_not_null w) as Hp.
  destruct (oracle w) as [| [|] o] eqn:E; cbn in Hfail, Hok; wsimpl.
  - non_null. eexists _, _. split; [reflexivity |].
    unfold set_lts. rewrite E. now apply Hok.
  - non_null. eexists _, _. split; [reflexivity |]. now apply Hok.
  - eexists _, _. split; [reflexivity |]. now apply Hfail.
Qed.

Hypothesis Hfree : free <> NULL.
Hypothesis Hdestroy_broadcast : destroy_broadcast <> NULL.
Hypothesis Hdestroy_sprite_font : destroy_sprite_font <> NULL.
Hypothesis Hdestroy_level_picker : destroy_level_picker <> NULL.
Hypothesis Hdestroy_sound_samples : destroy_sound_samples <> NULL.
Hypothesis Hdestroy_camera : destroy_camera <> NULL.
Hypothesis Hdestroy_console : destroy_console <> NULL.
Hypothesis HSDL_DestroyTexture : SDL_DestroyTexture <> NULL.

Lemma create_game_wp (level_folder sound_sample_files
    sound_sample_files_count renderer : Z) :
  level_folder <> NULL ->
  wp (create_game env free destroy_broadcast destroy_sprite_font
        destroy_level_picker destroy_sound_samples destroy_camera
        destroy_console SDL_DestroyTexture
        level_folder sound_sample_files sound_sample_files_count renderer)
     Post w0.
Proof.
  intros Hlf. unfold create_game.
  apply wp_bind, wp_assert; [exact Hlf |].
  apply wp_bind, wp_create_lt.
  { (* the Lifetime could not be allocated *)
    intros Ho. change (is_null NULL) with true. cbv iota. apply wp_ret.
    split; [reflexivity |]. split.
    - split; [intros H; now contradiction H |].
      intros [_ Hal]. specialize (Hal 0%nat ltac:(lia)).
      destruct (oracle w0) as [| [|] o]; cbn in Ho, Hal; discriminate.
    - intros H. now contradiction H. }
  intros Ho0. fold lt. rewrite (is_null_false lt (fresh_ptr_not_null w0)).
  assert (Hinv0 : forall w, slots w = slots w0 ->
                    lts w = <[lt := []]> (lts w0) ->
                    lifetime_inv (lts w0) lt [] w).
  { intros w _ Hl. exists []. split; [exact Hl |]. split; constructor. }
  (* the Game itself *)
  apply wp_bind. unfold nth_alloc. apply wp_bind, wp_construct. fold g.
  destruct (decide (g = NULL)) as [Eg | Hg].
  { rewrite Eg. change (is_null NULL) with true. cbv iota.
    apply wp_ret, wp_bind. eexists _, _. split; [apply lt_push_null |].
    change (is_null NULL) with true. cbv iota.
    apply (wp_RETURN_LT_NULL []); [now apply Hinv0 |].
    intros [Hall _]. inversion Hall; subst. contradiction. }
  rewrite (is_null_false g Hg). eexists _, _. split; [reflexivity |].
  apply wp_bind.
  apply (wp_PUSH_LT (lts w0) lt g free []); [now apply Hinv0 | exact Hfree | |].
  { intros [Hnull | Hhd] w' Hinv' _; [contradiction |].
    change (is_null NULL) with true. cbv iota.
    apply (wp_RETURN_LT_NULL []); [exact Hinv' |].
    intros [_ Hal]. specialize (Hal 1%nat ltac:(lia)).
    wsimpl. change (tail (oracle w0)) with (skipn 1 (oracle w0)) in Hhd.
    rewrite hd_skipn in Hhd. congruence. }
  intros _ Ho1 w1 Hinv1 Hg1 Hor1. wsimpl.
  change (tail (oracle w0)) with (skipn 1 (oracle w0)) in Ho1, Hor1.
  rewrite hd_skipn in Ho1. rewrite tl_skipn in Hor1.
  rewrite (is_null_false g Hg).
  apply wp_bind.
  apply (wp_write_game g F_lt lt Game_indeterminate);
    [rewrite Hg1; apply lookup_insert_eq |].
  apply wp_bind. eapply wp_write_game; [wsimpl; apply lookup_insert_eq |].
  (* the seven checked acquisitions after it *)
  eapply (wp_checked Create_broadcast _ destroy_broadcast F_broadcast _ _ _ 1);
    [cbn; tauto | lia | assumption
    | eapply lifetime_inv_frame; [| | exact Hinv1]; reflexivity
    | exact Hor1 | wsimpl; apply lookup_insert_eq |].
  clear w1 Hinv1 Hg1 Hor1. intros Hc2 Ho2 w2 Hinv2 Hor2 Hg2.
  eapply (wp_checked Create_sprite_font_from_file _ destroy_sprite_font
            F_font _ _ _ 2);
    [cbn; tauto | lia | assumption | exact Hinv2 | exact Hor2 | exact Hg2 |].
  clear w2 Hinv2 Hor2 Hg2. intros Hc3 Ho3 w3 Hinv3 Hor3 Hg3.
apply wp_bind. eapply wp_read_game; [exact Hg3 | reflexivity |].
  eapply (wp_checked Create_level_picker _ destroy_level_picker
            F_level_picker _ _ _ 3);
    [cbn; tauto | lia | assumption | exact Hinv3 | exact Hor3 | exact Hg3 |].
  clear w3 Hinv3 Hor3 Hg3. intros Hc4 Ho4 w4 Hinv4 Hor4 Hg4.
  apply wp_bind. eapply wp_write_game; [exact Hg4 |].
  eapply (wp_checked Create_sound_samples _ destroy_sound_samples
            F_sound_samples _ _ _ 4);
    [cbn; tauto | lia | assumption
    | eapply lifetime_inv_frame; [| | exact Hinv4]; reflexivity
    | exact Hor4 | wsimpl; apply lookup_insert_eq |].
  clear w4 Hinv4 Hor4 Hg4. intros Hc5 Ho5 w5 Hinv5 Hor5 Hg5.
  apply wp_bind. eapply wp_read_game; [exact Hg5 | reflexivity |].
  eapply (wp_checked Create_camera _ destroy_camera F_camera _ _ _ 5);
    [cbn; tauto | lia | assumption | exact Hinv5 | exact Hor5 | exact Hg5 |].
  clear w5 Hinv5 Hor5 Hg5. intros Hc6 Ho6 w6 Hinv6 Hor6 Hg6.
  apply wp_bind. eapply wp_read_game; [exact Hg6 | reflexivity |].
  apply wp_bind. eapply wp_read_game; [exact Hg6 | reflexivity |].
  eapply (wp_checked Create_console _ destroy_console F_console _ _ _ 6);
    [cbn; tauto | lia | assumption | exact Hinv6 | exact Hor6 | exact Hg6 |].
  clear w6 Hinv6 Hor6 Hg6. intros Hc7 Ho7 w7 Hinv7 Hor7 Hg7.
  (* the cursor texture: tracked, stored, not tested *)
  assert (Hok : all_ok).
  { split.
    - repeat constructor; assumption.
    - intros i Hi.
      do 8 (destruct i as [| i]; [first [assumption
            | destruct (oracle w0) as [| [|] ?]; cbn in Ho0 |- *; congruence] |]).
      lia. }
  apply wp_bind. eapply wp_write_game; [exact Hg7 |].
  apply wp_bind, wp_construct, wp_bind.
  eapply (wp_PUSH_LT (lts w0) lt (env Texture_from_bmp) SDL_DestroyTexture);
    [eapply lifetime_inv_frame; [| | exact Hinv7]; reflexivity
    | exact HSDL_DestroyTexture | |].
  - intros Hwhy w8 Hinv8 Hg8. wsimpl.
    apply wp_bind. eapply wp_write_game; [rewrite Hg8; apply lookup_insert_eq |].
    apply wp_bind. eapply wp_write_game; [wsimpl; apply lookup_insert_eq |].
    apply wp_bind. eapply wp_write_game; [wsimpl; apply lookup_insert_eq |].
    apply wp_ret.
    assert (Hcv : cursor_value env (oracle w0) = NULL).
    { unfold cursor_value. destruct Hwhy as [-> | Hhd]; [reflexivity |].
      rewrite Hor7, hd_skipn in Hhd. rewrite Hhd.
      now destruct (is_null (env Texture_from_bmp)). }
    split; [intros H; contradiction |].
    split; [split; [intros _; exact Hok | intros _; exact Hg] |]. intros _.
    split; [reflexivity |]. eexists lt, _. wsimpl.
    split; [apply lookup_insert_eq |]. split; [reflexivity |].
    split; [now rewrite Hcv |].
    unfold tracked_by_create_game. rewrite Hcv.
    change (is_null NULL) with true. cbv iota. rewrite app_nil_r.
    apply (lifetime_inv_holds (lts w0)).
    eapply lifetime_inv_frame; [| | exact Hinv8]; reflexivity.
  - intros Hr Hhd w8 Hinv8 Hg8 Hor8. wsimpl.
    apply wp_bind. eapply wp_write_game; [rewrite Hg8; apply lookup_insert_eq |].
    apply wp_bind. eapply wp_write_game; [wsimpl; apply lookup_insert_eq |].
    apply wp_bind. eapply wp_write_game; [wsimpl; apply lookup_insert_eq |].
    apply wp_ret.
    assert (Hcv : cursor_value env (oracle w0) = env Texture_from_bmp).
    { unfold cursor_value. rewrite (is_null_false _ Hr).
      rewrite Hor7, hd_skipn in Hhd. now rewrite Hhd. }
    split; [intros H; contradiction |].
    split; [split; [intros _; exact Hok | intros _; exact Hg] |]. intros _.
    split; [reflexivity |]. eexists lt, _. wsimpl.
    split; [apply lookup_insert_eq |]. split; [reflexivity |].
    split; [now rewrite Hcv |].
    unfold tracked_by_create_game. rewrite Hcv, (is_null_false _ Hr).
    apply (lifetime_inv_holds (lts w0)).
    eapply lifetime_inv_frame; [| | exact Hinv8]; reflexivity.
Qed.

End Create_game_proof.

(** ** The scenarios of the specification, run on the model *)

(** Track A, B, C, then destroy: C, B, A are released, in this order. *)
Example scenario_lifo :
  released_by
    (let* lt := create_lt in
     PUSH_LT lt 10 20 >> PUSH_LT lt 11 21 >> PUSH_LT lt 12 22 >>
     destroy_lt lt)
    world_empty
  = Some [(12, 22); (11, 21); (10, 20)].
Proof. vm_compute. reflexivity. Qed.

(** Track A; tracking B fails at registration: B is released at once;
    destroy then releases A alone. *)
Example scenario_failed_registration :
  released_by
    (let* lt := create_lt in
     PUSH_LT lt 10 20 >> PUSH_LT lt 11 21 >> destroy_lt lt)
    (set_oracle [true; true; false] world_empty)
  = Some [(11, 21); (10, 20)]
  /\ released_by
       (let* lt := create_lt in PUSH_LT lt 10 20 >> PUSH_LT lt 11 21)
       (set_oracle [true; true; false] world_empty)
     = Some [(11, 21)].
Proof. split; vm_compute; reflexivity. Qed.

(** Track A, reset it to A2, destroy: A is released by the reset, A2 by
    the teardown, with the release function of the one slot. *)
Example scenario_reset :
  released_by
    (let* lt := create_lt in
     PUSH_LT lt 10 20 >>
     RESET_LT lt 10 (construct Create_level_from_file [] 12) >>
     destroy_lt lt)
    world_empty
  = Some [(10, 20); (12, 20)].
Proof. vm_compute. reflexivity. Qed.

(** Destroying an empty Lifetime releases nothing. *)
Example scenario_empty :
  released_by (let* lt := create_lt in destroy_lt lt) world_empty = Some [].
Proof. vm_compute. reflexivity. Qed.

(** * Further properties of the code *)

(** ** The slot: how its operations compose *)

Lemma bind_Ret {A B} (m : M A) (k : A -> M B) (w w' : world) (a : A) :
  m w = Ret a w' -> bind m k w = k a w'.
Proof. intros H. unfold bind. now rewrite H. Qed.

(** X1: a slot that was created and is destroyed next: the resource is
    released exactly once, with its release function, and the heap of
    slots and the lifetimes are back to what they were before the
    creation. *)
Theorem create_destroy_roundtrip (r f : Z) (w : world) :
  r <> NULL -> f <> NULL -> hd true (oracle w) = true ->
  exists p w1 w',
    create_lt_slot r f w = Ret p w1 /\ p <> NULL /\
    destroy_lt_slot p w1 = Ret tt w' /\
    releases (trace w') = releases (trace w) ++ [(r, f)] /\
    slots w' = slots w /\ lts w' = lts w.
Proof.
  intros Hr Hf Ho.
  pose proof (create_lt_slot_succeeds r f w Hr Hf Ho) as Hc.
  pose proof (fresh_ptr_not_null w) as Hp.
  eexists _, _. 
  edestruct (destroy_lt_slot_returns (fresh_ptr w) r f) as (w' & Hd & Ht & Hrel & Hs & _ & Hl);
    [exact Hp | | exact Hf | ].
  2:{ exists w'. split; [exact Hc |]. split; [exact Hp |]. split; [exact Hd |].
      wsimpl. split.
      - rewrite Hrel, releases_app. cbn. now rewrite app_nil_r.
      - split; [| exact Hl].
        rewrite Hs. apply delete_insert_id, fresh_ptr_slots. }
  wsimpl. apply lookup_insert_eq.
Qed.

Lemma create_destroy_roundtrip_witness :
  exists p w1 w',
    create_lt_slot 10 20 world_empty = Ret p w1 /\ p <> NULL /\
    destroy_lt_slot p w1 = Ret tt w' /\
    releases (trace w') = [(10, 20)] /\
    slots w' = ∅ /\ lts w' = ∅.
Proof.
  refine (create_destroy_roundtrip 10 20 world_empty _ _ _);
    [discriminate | discriminate | reflexivity].
Defined.

(** X2: a slot that was just created for a resource owns that resource
    and no other: the ownership test on it answers 1 for the resource
    and 0 for every other non-null handle, and changes nothing. *)
Theorem create_then_contains (r f c : Z) (w : world) :
  r <> NULL -> f <> NULL -> c <> NULL -> hd true (oracle w) = true ->
  exists p w1,
    create_lt_slot r f w = Ret p w1 /\
    lt_slot_contains_resource p c w1 = Ret (if c =? r then 1 else 0) w1.
Proof.
  intros Hr Hf Hc Ho.
  pose proof (create_lt_slot_succeeds r f w Hr Hf Ho) as Hrun.
  pose proof (fresh_ptr_not_null w) as Hp.
  eexists _, _. split; [exact Hrun |].
  slot_unfold. non_null. wsimpl. rewrite lookup_insert_eq.
  cbn [resource]. now rewrite Z.eqb_sym.
Qed.

Lemma create_then_contains_witness :
  exists p w1,
    create_lt_slot 10 20 world_empty = Ret p w1 /\
    lt_slot_contains_resource p 11 w1 = Ret 0 w1.
Proof.
  refine (create_then_contains 10 20 11 world_empty _ _ _ _);
    [discriminate | discriminate | discriminate | reflexivity].
Defined.

Lemma last_cons (r0 r : Z) (rs : list Z) :
  List.last (r :: rs) r0 = List.last rs r.
Proof.
  destruct rs as [| x rs]; [reflexivity |].
  change (List.last (x :: rs) r0 = List.last (x :: rs) r).
  revert x. induction rs as [| y rs IH]; intros x; [reflexivity |].
  exact (IH y).
Qed.

Lemma reset_all_spec (p f : Z) (rs : list Z) :
  forall (r0 : Z) (w : world),
    p <> NULL -> f <> NULL -> slots w !! p = Some (Lt_slot r0 f) ->
    Forall (fun r => r <> NULL) rs ->
    exists w',
      reset_all p rs w = Ret tt w' /\
      releases (trace w') =
        releases (trace w) ++ map (fun r => (r, f)) (removelast (r0 :: rs)) /\
      slots w' = <[p := Lt_slot (List.last rs r0) f]> (slots w) /\
      lts w' = lts w.
Proof.
  induction rs as [| r rs IH]; intros r0 w Hp Hf Hs Hall.
  - exists w. cbn. rewrite app_nil_r. repeat split.
    symmetry. now apply insert_id.
  - apply Forall_cons in Hall as [Hr Hall].
    destruct (lt_slot_reset_resource_returns p r0 f r w Hp Hr Hs Hf)
      as (_ & w1 & Hrun & _ & _ & _ & _ & Hrel & Hsl & Hs1 & Hl).
    destruct (IH r w1 Hp Hf Hs1 Hall) as (w' & Hrun' & Hrel' & Hsl' & Hl').
    exists w'. cbn [reset_all]. rewrite (bind_Ret _ _ _ _ _ Hrun).
    split; [exact Hrun' |].
    split.
    { rewrite Hrel', Hrel, <- app_assoc. now f_equal. }
    split; [| congruence].
    rewrite Hsl', Hsl, insert_insert_eq. now rewrite last_cons.
Qed.

(** X3: a slot hosts a sequence of resources: after any number of
    [lt_slot_reset_resource] calls with non-null resources and the final
    [destroy_lt_slot], every resource the slot ever held has been
    released exactly once, in the order in which the slot held them and
    always with the slot's one release function; the slot is live no
    more. *)
Theorem reset_all_destroy_releases (p r0 f : Z) (rs : list Z) (w : world) :
  p <> NULL -> f <> NULL -> slots w !! p = Some (Lt_slot r0 f) ->
  Forall (fun r => r <> NULL) rs ->
  exists w',
    (reset_all p rs >> destroy_lt_slot p) w = Ret tt w' /\
    releases (trace w') =
      releases (trace w) ++ map (fun r => (r, f)) (r0 :: rs) /\
    slots w' = delete p (slots w) /\
    lts w' = lts w.
Proof.
  intros Hp Hf Hs Hall.
  destruct (reset_all_spec p f rs r0 w Hp Hf Hs Hall)
    as (w1 & Hrun & Hrel & Hsl & Hl).
  assert (Hs1 : slots w1 !! p = Some (Lt_slot (List.last rs r0) f))
    by (rewrite Hsl; apply lookup_insert_eq).
  destruct (destroy_lt_slot_returns p _ f w1 Hp Hs1 Hf)
    as (w' & Hrun' & _ & Hrel' & Hsl' & _ & Hl').
  exists w'. rewrite (bind_Ret _ _ _ _ _ Hrun).
  split; [exact Hrun' |].
  split; [| split; [rewrite Hsl', Hsl; apply delete_insert_eq | congruence]].
  rewrite Hrel', Hrel, <- app_assoc. f_equal.
  change [(List.last rs r0, f)] with (map (fun r => (r, f)) [List.last rs r0]).
  rewrite <- map_app. f_equal.
  rewrite <- (last_cons r0 r0 rs). symmetry.
  apply app_removelast_last. discriminate.
Qed.

Lemma reset_all_destroy_releases_witness :
  exists w',
    (reset_all 3 [11; 12] >> destroy_lt_slot 3)
      (World {[ 3 := Lt_slot 10 20 ]} ∅ ∅ [] []) = Ret tt w' /\
    releases (trace w') = [] ++ [(10, 20); (11, 20); (12, 20)] /\
    slots w' = delete 3 {[ 3 := Lt_slot 10 20 ]} /\
    lts w' = ∅.
Proof.
  refine (reset_all_destroy_releases 3 10 20 [11; 12]
            (World {[ 3 := Lt_slot 10 20 ]} ∅ ∅ [] []) _ _ _ _);
    [discriminate | discriminate | reflexivity
    | repeat constructor; discriminate].
Defined.

(** X4: the slot operations touch one slot only.  Whenever one of them
    returns, every other slot is as it was, and so are all lifetimes; a
    created slot never takes the address of a live one; creating a slot
    calls no release function and leaves the [Game] memory alone, and the
    ownership test changes nothing at all. *)
Theorem slot_operations_frame (w w' : world) :
  (forall r f p, create_lt_slot r f w = Ret p w' ->
     lts w' = lts w /\ games w' = games w /\
     (p = NULL -> slots w' = slots w) /\
     (p <> NULL -> slots w !! p = None /\
                   forall q, q <> p -> slots w' !! q = slots w !! q)) /\
  (forall p r, lt_slot_reset_resource p r w = Ret tt w' ->
     lts w' = lts w /\
     forall q, q <> p -> slots w' !! q = slots w !! q) /\
  (forall p, destroy_lt_slot p w = Ret tt w' ->
     lts w' = lts w /\
     forall q, q <> p -> slots w' !! q = slots w !! q) /\
  (forall p c v, lt_slot_contains_resource p c w = Ret v w' -> w' = w).
Proof.
  refine (conj _ (conj _ (conj _ _))).
  - intros r f p. slot_unfold.
    destruct (is_null r); [discriminate |].
    destruct (is_null f); [discriminate |].
    pose proof (fresh_ptr_not_null w) as Hp.
    destruct (oracle w) as [| [|] o]; wsimpl; non_null; cbn;
      intros [= <- <-]; wsimpl;
      (split; [reflexivity |]); (split; [reflexivity |]); split;
      try (intros; reflexivity); try (intros E; now contradiction E);
      try (intros _; split; [apply fresh_ptr_slots |];
           intros q Hq; now apply lookup_insert_ne).
  - intros p r. slot_unfold.
    destruct (is_null p); [discriminate |].
    destruct (is_null r); [discriminate |].
    destruct (slots w !! p) as [s |]; [| discriminate].
    destruct (is_null (resource_destroy s)); [discriminate |]. cbn.
    intros [= <-]. wsimpl. split; [reflexivity |].
    intros q Hq. now apply lookup_insert_ne.
  - intros p. slot_unfold.
    destruct (is_null p); [discriminate |].
    destruct (slots w !! p) as [s |] eqn:Hs; [| discriminate].
    destruct (is_null (resource_destroy s)); [discriminate |]. cbn.
    rewrite Hs. cbn. intros [= <-]. wsimpl.
    split; [reflexivity |].
    intros q Hq. now apply lookup_delete_ne.
  - intros p c v. slot_unfold.
    destruct (is_null p); [discriminate |].
    destruct (is_null c); [discriminate |].
    destruct (slots w !! p) as [s |]; [| discriminate].
    now intros [= _ <-].
Qed.

Lemma slot_operations_frame_witness :
  exists w',
    destroy_lt_slot 3
      (World {[ 3 := Lt_slot 10 20; 4 := Lt_slot 11 21 ]} {[ 1 := [3; 4] ]}
         ∅ [] []) = Ret tt w' /\
    slots w' !! 4 = Some (Lt_slot 11 21) /\ lts w' = {[ 1 := [3; 4] ]}.
Proof.
  destruct (destroy_lt_slot_returns 3 10 20
              (World {[ 3 := Lt_slot 10 20; 4 := Lt_slot 11 21 ]}
                 {[ 1 := [3; 4] ]} ∅ [] []))
    as (w' & Hrun & _); [discriminate | reflexivity | discriminate |].
  destruct (slot_operations_frame
              (World {[ 3 := Lt_slot 10 20; 4 := Lt_slot 11 21 ]}
                 {[ 1 := [3; 4] ]} ∅ [] []) w') as (_ & _ & H & _).
  destruct (H 3 Hrun) as (Hl & Hs).
  exists w'. split; [exact Hrun |].
  split; [| exact Hl]. rewrite (Hs 4); [vm_compute; reflexivity | discriminate].
Defined.

(** X5: a destroyed slot must not be used again: once [destroy_lt_slot]
    has returned, a second [destroy_lt_slot], a [lt_slot_reset_resource]
    and a [lt_slot_contains_resource] on the same pointer read freed
    storage, which is undefined behaviour, not an abort and not a
    result. *)
Theorem slot_use_after_destroy (p : Z) (w w' : world) :
  destroy_lt_slot p w = Ret tt w' ->
  destroy_lt_slot p w' = Undefined /\
  (forall r, r <> NULL -> lt_slot_reset_resource p r w' = Undefined) /\
  (forall c, c <> NULL -> lt_slot_contains_resource p c w' = Undefined).
Proof.
  intros Hrun.
  assert (H : is_null p = false /\ slots w' !! p = None).
  { revert Hrun. slot_unfold.
    destruct (is_null p); [discriminate |].
    destruct (slots w !! p) as [s |] eqn:Hs; [| discriminate].
    destruct (is_null (resource_destroy s)); [discriminate |]. cbn.
    rewrite Hs. cbn. intros [= <-]. wsimpl.
    split; [reflexivity | apply lookup_delete_eq]. }
  destruct H as [Hp Hs]. slot_unfold. rewrite Hp, Hs.
  split; [reflexivity |].
  split; intros x Hx; now rewrite ?Hp, (is_null_false x Hx), Hs.
Qed.

Lemma slot_use_after_destroy_witness :
  exists w',
    destroy_lt_slot 3 (World {[ 3 := Lt_slot 10 20 ]} ∅ ∅ [] []) = Ret tt w' /\
    destroy_lt_slot 3 w' = Undefined /\
    lt_slot_reset_resource 3 11 w' = Undefined /\
    lt_slot_contains_resource 3 10 w' = Undefined.
Proof.
  destruct (destroy_lt_slot_returns 3 10 20
              (World {[ 3 := Lt_slot 10 20 ]} ∅ ∅ [] []))
    as (w' & Hrun & _); [discriminate | reflexivity | discriminate |].
  destruct (slot_use_after_destroy 3 _ w' Hrun) as (H1 & H2 & H3).
  exists w'. split; [exact Hrun |]. split; [exact H1 |].
  split; [apply H2 | apply H3]; discriminate.
Defined.

(** ** [create_game] and [destroy_game] *)

Lemma constructed_app (env rel : ctor -> Z) (t1 t2 : list event) :
  constructed env rel (t1 ++ t2) = constructed env rel t1 ++ constructed env rel t2.
Proof.
  induction t1 as [| e t1 IH]; [reflexivity |].
  destruct e; cbn; rewrite ?IH; try reflexivity. now rewrite app_assoc.
Qed.

(** Destroying slots, and a Lifetime, calls no constructor. *)
Lemma destroy_slots_constructs (env rel : ctor -> Z) (ps : list Z) :
  forall w w', destroy_slots ps w = Ret tt w' ->
    exists t, trace w' = trace w ++ t /\ constructed env rel t = [].
Proof.
  induction ps as [| p ps IH]; intros w w'.
  - intros [= <-]. exists []. now rewrite app_nil_r.
  - cbn [destroy_slots]. unfold bind at 1.
    destruct (destroy_lt_slot p w) as [[] w1 | |] eqn:Hd; try discriminate.
    intros Hrest. destruct (IH _ _ Hrest) as (t & Ht & Hc).
    revert Hd. slot_unfold.
    destruct (is_null p); [discriminate |].
    destruct (slots w !! p) as [s |] eqn:Hs; [| discriminate].
    destruct (is_null (resource_destroy s)); [discriminate |]. cbn.
    rewrite Hs. cbn. intros [= <-]. wsimpl. eexists.
    split; [rewrite Ht, <- !app_assoc; reflexivity |].
    cbn. exact Hc.
Qed.

Lemma destroy_lt_constructs (env rel : ctor -> Z) (lt : Z) (w w' : world) :
  destroy_lt lt w = Ret tt w' ->
  exists t, trace w' = trace w ++ t /\ constructed env rel t = [].
Proof.
  unfold destroy_lt, bind at 1, load_frames.
  destruct (lts w !! lt) as [fs |]; [| discriminate].
  unfold bind.
  destruct (destroy_slots (rev fs) w) as [[] w1 | |] eqn:Hd; try discriminate.
  destruct (destroy_slots_constructs env rel _ _ _ Hd) as (t & Ht & Hc).
  unfold free_lt. destruct (lts w1 !! lt); [| discriminate].
  intros [= <-]. wsimpl. exists (t ++ [EvFree lt]).
  split; [now rewrite Ht, <- app_assoc |].
  rewrite constructed_app, Hc. reflexivity.
Qed.

(** Tracking under the invariant, with what it adds to the trace. *)
Lemma wp_PUSH_LT_trace (base : gmap Z (list Z)) (lt r f : Z)
    (rs : list (Z * Z)) (Q : Z -> world -> Prop) (w : world) :
  lifetime_inv base lt rs w -> f <> NULL ->
  (r = NULL -> Q NULL w) ->
  (r <> NULL ->
   forall w', lifetime_inv base lt rs w' -> games w' = games w ->
              trace w' = trace w ++ [EvRelease f r] -> Q NULL w') ->
  (r <> NULL ->
   forall w', lifetime_inv base lt (rs ++ [(r, f)]) w' -> games w' = games w ->
              trace w' = trace w ++ [EvPrint ("LT: created slot" +:+ LF)] ->
              Q r w') ->
  wp (PUSH_LT lt r f) Q w.
Proof.
  intros Hinv Hf Hnull Hfail Hok. unfold PUSH_LT.
  destruct (decide (r = NULL)) as [-> | Hr].
  { exists NULL, w. split; [apply lt_push_null | now apply Hnull]. }
  destruct (hd true (oracle w)) eqn:Ho.
  - destruct Hinv as (ps & Hl & Hnd & Hall).
    assert (Hlt : lts w !! lt = Some ps) by (rewrite Hl; apply lookup_insert_eq).
    pose proof (lt_push_succeeds lt r f w ps Hr Hf Ho Hlt) as Hrun.
    eexists _, _. split; [exact Hrun |].
    apply Hok; try done.
    assert (Hh : lt_holds w lt rs) by (exists ps; now repeat split).
    destruct (lt_push_holds lt r f rs w _ Hh Hrun Hr) as (ps' & Hl' & Hnd' & Hall').
    exists ps'. wsimpl. split; [| now split].
    rewrite lookup_insert_eq in Hl'. injection Hl' as <-.
    rewrite Hl. apply insert_insert_eq.
  - destruct (hd_false _ Ho) as [o Ho'].
    eexists _, _. split; [apply (lt_push_fails lt r f w o); assumption |].
    apply Hfail; [exact Hr | | reflexivity | reflexivity].
    now apply (lifetime_inv_frame base lt rs w).
Qed.

Lemma releases_snoc_other (t : list event) (e : event) :
  releases [e] = [] -> releases (t ++ [e]) = releases t.
Proof. intros H. now rewrite releases_app, H, app_nil_r. Qed.

Section Create_game_handles_proof.

Variables env rel : ctor -> Z.
Variable w0 : world.
Hypothesis Hrel : forall c, c <> Create_level_from_file -> rel c <> NULL.

Let lt := fresh_ptr w0.
Let g := env Nth_alloc.
Let Post := create_game_handles env rel w0.
Let Inv := create_game_inv env rel w0 lt.

Lemma Inv_frame (rs : list (Z * Z)) (w w' : world) :
  slots w' = slots w -> lts w' = lts w -> trace w' = trace w ->
  Inv rs w -> Inv rs w'.
Proof.
  intros Hs Hl Ht (Hinv & t & Htr & Hr & Hc). split.
  - now apply (lifetime_inv_frame _ _ _ w).
  - exists t. now rewrite Ht.
Qed.

(** A failed check, with [xs] the handle just released by the tracking
    that failed, if any. *)
Lemma wp_RETURN_LT_handles (rs xs : list (Z * Z)) (t : list event) (w : world) :
  lifetime_inv (lts w0) lt rs w ->
  trace w = trace w0 ++ t -> releases t = xs ->
  constructed env rel t = rs ++ rev xs ->
  wp (RETURN_LT lt NULL) Post w.
Proof.
  intros Hinv Ht Hx Hc.
  destruct (destroy_lt_spec lt rs w (lifetime_inv_holds _ _ _ _ Hinv))
    as (w' & td & Hrun & Htd & Hreld & _).
  destruct (destroy_lt_constructs env rel lt w w' Hrun) as (td' & Htd' & Hcd).
  assert (td' = td) as -> by (apply (app_inv_head (trace w)); congruence).
  exists NULL, w'. split.
  { unfold RETURN_LT. now rewrite (bind_Ret _ _ _ _ _ Hrun). }
  exists (t ++ td). split; [now rewrite Htd, Ht, app_assoc |].
  split; [| intros H; now contradiction H].
  intros _. rewrite releases_app, constructed_app, Hx, Hreld, Hc, Hcd.
  now rewrite app_nil_r, rev_app_distr, rev_involutive.
Qed.

Lemma wp_checked_handles (c : ctor) (args : list Z) (F : Game_field)
    (K : Z -> M Z) (rs : list (Z * Z)) (gm : Game) (w : world) :
  c <> Create_level_from_file ->
  Inv rs w -> games w !! g = Some gm ->
  (env c <> NULL ->
   forall w',
     Inv (rs ++ [(env c, rel c)]) w' ->
     games w' !! g = Some (Game_write F (env c) gm) ->
     wp (K (env c)) Post w') ->
  wp (let* r := construct c args (env c) in
      let* r' := PUSH_LT lt r (rel c) in
      write_game g F r' >>
      let* x := read_game g F in
      if is_null x then RETURN_LT lt NULL else K x) Post w.
Proof.
  intros Hcc (Hinv & t & Ht & Hr & Hc) Hg HK.
  apply wp_bind, wp_construct, wp_bind.
  assert (Hfail : forall xs t' w',
            lifetime_inv (lts w0) lt rs w' -> games w' = games w ->
            trace w' = trace w0 ++ t' -> releases t' = xs ->
            constructed env rel t' = rs ++ rev xs ->
            wp (write_game g F NULL >>
                let* x := read_game g F in
                if is_null x then RETURN_LT lt NULL else K x) Post w').
  { intros xs t' w' Hinv' Hg' Ht' Hx' Hc'.
    apply wp_bind. apply (wp_write_game g F NULL gm); [rewrite Hg'; exact Hg |].
    apply wp_bind.
    apply (wp_read_game g F NULL (Game_write F NULL gm));
      [wsimpl; apply lookup_insert_eq | apply Game_write_same |].
    change (is_null NULL) with true. cbv iota.
    apply (wp_RETURN_LT_handles rs xs t');
      [now apply (lifetime_inv_frame _ _ _ w') | exact Ht' | exact Hx' | exact Hc']. }
  apply (wp_PUSH_LT_trace (lts w0) lt (env c) (rel c) rs).
  - now apply (lifetime_inv_frame (lts w0) lt rs w).
  - apply Hrel, Hcc.
  - intros Hnull. apply (Hfail [] (t ++ [EvConstruct c args])).
    + now apply (lifetime_inv_frame (lts w0) lt rs w).
    + reflexivity.
    + wsimpl. now rewrite Ht, app_assoc.
    + now rewrite releases_snoc_other.
    + rewrite constructed_app, Hc. cbn. rewrite Hnull.
      change (is_null NULL) with true. cbn. now rewrite !app_nil_r.
  - intros Hnn w' Hinv' Hg' Ht'.
    apply (Hfail [(env c, rel c)]
             (t ++ [EvConstruct c args; EvRelease (rel c) (env c)]));
      [exact Hinv' | exact Hg' | | |].
    + rewrite Ht'. wsimpl. now rewrite Ht, <- !app_assoc.
    + rewrite releases_app, Hr. reflexivity.
    + rewrite constructed_app, Hc. cbn. now rewrite (is_null_false _ Hnn).
  - intros Hnn w' Hinv' Hg' Ht'.
    apply wp_bind. apply (wp_write_game g F (env c) gm); [rewrite Hg'; exact Hg |].
    apply wp_bind.
    apply (wp_read_game g F (env c) (Game_write F (env c) gm));
      [wsimpl; apply lookup_insert_eq | apply Game_write_same |].
    rewrite (is_null_false _ Hnn). apply HK; [exact Hnn | | wsimpl; apply lookup_insert_eq].
    split; [now apply (lifetime_inv_frame _ _ _ w') |].
    exists (t ++ [EvConstruct c args; EvPrint ("LT: created slot" +:+ LF)]).
    wsimpl. split; [rewrite Ht'; wsimpl; now rewrite Ht, <- !app_assoc |].
    split; [rewrite releases_app, Hr; reflexivity |].
    rewrite constructed_app, Hc. cbn. now rewrite (is_null_false _ Hnn).
Qed.

Lemma create_game_handles_wp (level_folder sound_sample_files
    sound_sample_files_count renderer : Z) :
  level_folder <> NULL ->
  wp (create_game env (rel Nth_alloc) (rel Create_broadcast)
        (rel Create_sprite_font_from_file) (rel Create_level_picker)
        (rel Create_sound_samples) (rel Create_camera) (rel Create_console)
        (rel Texture_from_bmp)
        level_folder sound_sample_files sound_sample_files_count renderer)
     Post w0.
Proof.
  intros Hlf. unfold create_game.
  apply wp_bind, wp_assert; [exact Hlf |].
  apply wp_bind, wp_create_lt.
  { intros _. change (is_null NULL) with true. cbv iota. apply wp_ret.
    exists []. wsimpl. split; [now rewrite app_nil_r |].
    split; [reflexivity | intros H; now contradiction H]. }
  intros _. fold lt. rewrite (is_null_false lt (fresh_ptr_not_null w0)).
  assert (Hinv0 : forall w, slots w = slots w0 ->
                    lts w = <[lt := []]> (lts w0) ->
                    lifetime_inv (lts w0) lt [] w).
  { intros w _ Hl. exists []. split; [exact Hl |]. split; constructor. }
  (* the Game itself *)
  apply wp_bind. unfold nth_alloc. apply wp_bind, wp_construct. fold g.
  destruct (decide (g = NULL)) as [Eg | Hg].
  { rewrite Eg. change (is_null NULL) with true. cbv iota.
    apply wp_ret, wp_bind. eexists _, _. split; [apply lt_push_null |].
    change (is_null NULL) with true. cbv iota.
    apply (wp_RETURN_LT_handles [] [] [EvConstruct Nth_alloc []]);
      [now apply Hinv0 | reflexivity | reflexivity |].
    cbn. fold g. rewrite Eg. reflexivity. }
  rewrite (is_null_false g Hg). eexists _, _. split; [reflexivity |].
  apply wp_bind.
  apply (wp_PUSH_LT_trace (lts w0) lt g (rel Nth_alloc) []);
    [now apply Hinv0 | apply Hrel; discriminate | intros E; contradiction | |].
  { intros _ w' Hinv' _ Ht'. wsimpl.
    change (is_null NULL) with true. cbv iota.
    apply (wp_RETURN_LT_handles [] [(g, rel Nth_alloc)]
             [EvConstruct Nth_alloc []; EvRelease (rel Nth_alloc) g]);
      [exact Hinv' | now rewrite Ht', <- app_assoc | reflexivity |].
    cbn. fold g. now rewrite (is_null_false g Hg). }
  intros _ w1 Hinv1 Hg1 Ht1. wsimpl.
  rewrite (is_null_false g Hg).
  assert (HI1 : Inv [(g, rel Nth_alloc)] w1).
  { split; [exact Hinv1 |].
    exists [EvConstruct Nth_alloc []; EvPrint ("LT: created slot" +:+ LF)].
    split; [now rewrite Ht1, <- app_assoc |]. split; [reflexivity |].
    cbn. fold g. now rewrite (is_null_false g Hg). }
  clear Hinv1 Ht1.
  apply wp_bind.
  apply (wp_write_game g F_lt lt Game_indeterminate);
    [rewrite Hg1; apply lookup_insert_eq |].
  apply wp_bind. eapply wp_write_game; [wsimpl; apply lookup_insert_eq |].
  (* the seven checked acquisitions after it *)
  eapply (wp_checked_handles Create_broadcast _ F_broadcast);
    [discriminate | eapply Inv_frame; [| | | exact HI1]; reflexivity
    | wsimpl; apply lookup_insert_eq |].
  clear w1 Hg1 HI1. intros Hc2 w2 HI2 Hg2.
  eapply (wp_checked_handles Create_sprite_font_from_file _ F_font);
    [discriminate | exact HI2 | exact Hg2 |].
  clear w2 HI2 Hg2. intros Hc3 w3 HI3 Hg3.
  apply wp_bind. eapply wp_read_game; [exact Hg3 | reflexivity |].
  eapply (wp_checked_handles Create_level_picker _ F_level_picker);
    [discriminate | exact HI3 | exact Hg3 |].
  clear w3 HI3 Hg3. intros Hc4 w4 HI4 Hg4.
  apply wp_bind. eapply wp_write_game; [exact Hg4 |].
  eapply (wp_checked_handles Create_sound_samples _ F_sound_samples);
    [discriminate | eapply Inv_frame; [| | | exact HI4]; reflexivity
    | wsimpl; apply lookup_insert_eq |].
  clear w4 HI4 Hg4. intros Hc5 w5 HI5 Hg5.
  apply wp_bind. eapply wp_read_game; [exact Hg5 | reflexivity |].
  eapply (wp_checked_handles Create_camera _ F_camera);
    [discriminate | exact HI5 | exact Hg5 |].
  clear w5 HI5 Hg5. intros Hc6 w6 HI6 Hg6.
  apply wp_bind. eapply wp_read_game; [exact Hg6 | reflexivity |].
  apply wp_bind. eapply wp_read_game; [exact Hg6 | reflexivity |].
  eapply (wp_checked_handles Create_console _ F_console);
    [discriminate | exact HI6 | exact Hg6 |].
  clear w6 HI6 Hg6. intros Hc7 w7 (Hinv7 & t7 & Ht7 & Hr7 & Hcs7) Hg7.
  (* the cursor texture *)
  apply wp_bind. eapply wp_write_game; [exact Hg7 |].
  apply wp_bind, wp_construct, wp_bind.
  assert (Hend : forall (rs xs : list (Z * Z)) (t : list event) (v : Z)
                   (w8 : world) (gm8 : Game),
            lifetime_inv (lts w0) lt rs w8 ->
            games w8 !! g = Some gm8 -> gm8 F_lt = Some lt ->
            trace w8 = trace w0 ++ t -> releases t = xs ->
            constructed env rel t = rs ++ rev xs ->
            (length xs <= 1)%nat ->
            wp (write_game g F_texture_cursor v >>
                write_game g F_cursor_x 0 >>
                write_game g F_cursor_y 0 >> ret g) Post w8).
  { intros rs xs t v w8 gm8 Hinv8 Hg8 Hlt8 Ht8 Hx8 Hc8 Hlen.
    apply wp_bind. eapply wp_write_game; [exact Hg8 |].
    apply wp_bind. eapply wp_write_game; [wsimpl; apply lookup_insert_eq |].
    apply wp_bind. eapply wp_write_game; [wsimpl; apply lookup_insert_eq |].
    apply wp_ret. exists t. wsimpl. split; [exact Ht8 |].
    split; [intros E; contradiction |]. intros _.
    eexists lt, _, rs. split; [apply fresh_ptr_lts |].
    split; [eapply lifetime_inv_frame; [| | exact Hinv8]; reflexivity |].
    split; [apply lookup_insert_eq |]. split; [exact Hlt8 |].
    rewrite Hx8. now split. }
  set (tex := env Texture_from_bmp).
  eapply (wp_PUSH_LT_trace (lts w0) lt tex (rel Texture_from_bmp));
    [eapply lifetime_inv_frame; [| | exact Hinv7]; reflexivity
    | apply Hrel; discriminate | | |].
  - intros Hnull.
    eapply (Hend _ [] (t7 ++ [EvConstruct Texture_from_bmp [renderer]]));
      [eapply lifetime_inv_frame; [| | exact Hinv7]; reflexivity
      | wsimpl; apply lookup_insert_eq | reflexivity
      | wsimpl; now rewrite Ht7, app_assoc
      | now rewrite releases_snoc_other | | cbn; lia].
    rewrite constructed_app, Hcs7. cbn. fold tex. rewrite Hnull.
    change (is_null NULL) with true. cbn. now rewrite ?app_nil_r.
  - intros Hnn w8 Hinv8 Hg8 Ht8.
    eapply (Hend _ [(tex, rel Texture_from_bmp)]
              (t7 ++ [EvConstruct Texture_from_bmp [renderer];
                      EvRelease (rel Texture_from_bmp) tex]));
      [exact Hinv8 | rewrite Hg8; wsimpl; apply lookup_insert_eq
      | reflexivity | | | | cbn; lia].
    + rewrite Ht8. wsimpl. now rewrite Ht7, <- !app_assoc.
    + rewrite releases_app, Hr7. reflexivity.
    + rewrite constructed_app, Hcs7. cbn. fold tex.
      now rewrite (is_null_false _ Hnn).
  - intros Hnn w8 Hinv8 Hg8 Ht8.
    eapply (Hend _ []
              (t7 ++ [EvConstruct Texture_from_bmp [renderer];
                      EvPrint ("LT: created slot" +:+ LF)]));
      [exact Hinv8 | rewrite Hg8; wsimpl; apply lookup_insert_eq
      | reflexivity | | | | cbn; lia].
    + rewrite Ht8. wsimpl. now rewrite Ht7, <- !app_assoc.
    + rewrite releases_app, Hr7. reflexivity.
    + rewrite constructed_app, Hcs7. cbn. fold tex.
      now rewrite (is_null_false _ Hnn), app_nil_r.
Qed.

End Create_game_handles_proof.

(** *** The cursor texture is not checked *)



(** X6: [create_game] accounts for every handle its constructors
    produce.  When it returns [NULL], each of them has been released
    exactly once, with the release function it was paired with, the most
    recently constructed first.  When it returns a [Game], each of them
    is tracked by the Game's Lifetime, in the order of construction,
    except for at most one handle that has been released instead (the
    cursor texture, when its slot could not be allocated). *)
Theorem create_game_accounts_for_handles (env rel : ctor -> Z)
    (level_folder sound_sample_files sound_sample_files_count renderer : Z)
    (w0 : world) :
  level_folder <> NULL -> (forall c, rel c <> NULL) ->
  exists g w' t,
    create_game env (rel Nth_alloc) (rel Create_broadcast)
      (rel Create_sprite_font_from_file) (rel Create_level_picker)
      (rel Create_sound_samples) (rel Create_camera) (rel Create_console)
      (rel Texture_from_bmp)
      level_folder sound_sample_files sound_sample_files_count renderer w0
    = Ret g w' /\
    trace w' = trace w0 ++ t /\
    (g = NULL -> releases t = rev (constructed env rel t)) /\
    (g <> NULL ->
     exists lt gm rs,
       games w' !! g = Some gm /\ gm F_lt = Some lt /\
       lt_holds w' lt rs /\
       constructed env rel t = rs ++ rev (releases t) /\
       (length (releases t) <= 1)%nat).
Proof.
  intros Hlf Hrel.
  destruct (create_game_handles_wp env rel w0 (fun c _ => Hrel c) level_folder
              sound_sample_files sound_sample_files_count renderer Hlf)
    as (g & w' & Hrun & t & Ht & Hnull & Hgame).
  exists g, w', t. split; [exact Hrun |]. split; [exact Ht |].
  split; [exact Hnull |]. intros Hg.
  destruct (Hgame Hg) as (lt & gm & rs & _ & Hinv & Hgm & Hlt & Hc & Hlen).
  exists lt, gm, rs. split; [exact Hgm |]. split; [exact Hlt |].
  split; [exact (lifetime_inv_holds _ _ _ _ Hinv) | now split].
Qed.

Lemma create_game_accounts_for_handles_witness :
  exists g w' t,
    create_game env_no_camera 1 2 3 4 5 6 7 8 50 51 52 53 world_empty
    = Ret g w' /\
    trace w' = trace world_empty ++ t /\
    (g = NULL ->
     releases t = rev (constructed env_no_camera rel_example t)).
Proof.
  destruct (create_game_accounts_for_handles env_no_camera
              rel_example 50 51 52 53 world_empty)
    as (g & w' & t & Hrun & Ht & Hnull & _).
  - discriminate.
  - intros c. now destruct c.
  - cbn [rel_example] in Hrun.
    exists g, w', t. split; [exact Hrun |]. split; [exact Ht | exact Hnull].
Defined.

(** X7: a [Game] that [create_game] returned and [destroy_game] tears
    down: [destroy_game] returns, the Lifetime that [create_game] made is
    gone, and over the two calls together every handle that a
    constructor produced has been released exactly once, with its own
    release function, in the reverse order of construction. *)
Theorem create_destroy_game (env rel : ctor -> Z)
    (level_folder sound_sample_files sound_sample_files_count renderer : Z)
    (w0 w1 : world) (g : Z) :
  level_folder <> NULL -> (forall c, rel c <> NULL) ->
  create_game env (rel Nth_alloc) (rel Create_broadcast)
    (rel Create_sprite_font_from_file) (rel Create_level_picker)
    (rel Create_sound_samples) (rel Create_camera) (rel Create_console)
    (rel Texture_from_bmp)
    level_folder sound_sample_files sound_sample_files_count renderer w0
  = Ret g w1 ->
  g <> NULL ->
  exists w2 t,
    destroy_game g w1 = Ret tt w2 /\
    trace w2 = trace w0 ++ t /\
    releases t = rev (constructed env rel t) /\
    lts w2 = lts w0.
Proof.
  intros Hlf Hrel Hrun Hg.
  destruct (create_game_handles_wp env rel w0 (fun c _ => Hrel c) level_folder
              sound_sample_files sound_sample_files_count renderer Hlf)
    as (g' & w1' & Hrun' & t & Ht & _ & Hgame).
  rewrite Hrun in Hrun'. injection Hrun' as <- <-.
  destruct (Hgame Hg) as (lt & gm & rs & Hfresh & Hinv & Hgm & Hlt & Hc & _).
  destruct (destroy_lt_spec lt rs w1 (lifetime_inv_holds _ _ _ _ Hinv))
    as (w2 & td & Hd & Htd & Hreld & Hl & _).
  destruct (destroy_lt_constructs env rel lt w1 w2 Hd) as (td' & Htd' & Hcd).
  assert (td' = td) as -> by (apply (app_inv_head (trace w1)); congruence).
  exists w2, (t ++ td). split.
  { unfold destroy_game, assert, RETURN_LT0. rewrite (is_null_false g Hg).
    unfold bind at 1. unfold bind at 1, read_game. now rewrite Hgm, Hlt. }
  split; [now rewrite Htd, Ht, app_assoc |].
  split.
  - rewrite releases_app, constructed_app, Hreld, Hc, Hcd, app_nil_r.
    now rewrite rev_app_distr, rev_involutive.
  - rewrite Hl. destruct Hinv as (ps & -> & _). now apply delete_insert_id.
Qed.

Lemma create_destroy_game_witness :
  exists g w1 w2 t,
    create_game env_no_cursor 1 2 3 4 5 6 7 8 50 51 52 53 world_empty
    = Ret g w1 /\
    destroy_game g w1 = Ret tt w2 /\
    trace w2 = trace world_empty ++ t /\
    releases t =
      rev (constructed env_no_cursor rel_example t) /\
    lts w2 = ∅.
Proof.
  pose proof (create_game_wp env_no_cursor 1 2 3 4 5 6 7 8 world_empty
                ltac:(discriminate) ltac:(discriminate) ltac:(discriminate)
                ltac:(discriminate) ltac:(discriminate) ltac:(discriminate)
                ltac:(discriminate) ltac:(discriminate) 50 51 52 53
                ltac:(discriminate)) as H.
  unfold wp in H. destruct H as (g & w1 & H). destruct H as (Hrun & H).
  unfold create_game_post in H. destruct H as (_ & Hiff & _).
  assert (Hg : g <> NULL).
  { apply Hiff. split; [repeat constructor; discriminate |].
    intros i _. destruct i; reflexivity. }
  destruct (create_destroy_game env_no_cursor
              rel_example
              50 51 52 53 world_empty w1 g)
    as (w2 & t & Hd & Ht & Hrel & Hl).
  - discriminate.
  - intros c. destruct c; discriminate.
  - exact Hrun.
  - exact Hg.
  - exists g, w1, w2, t.
    split; [exact Hrun |]. split; [exact Hd |]. split; [exact Ht |].
    split; [exact Hrel | exact Hl].
Defined.

(** ** The frame functions of game.c *)

Lemma bind_assert (p : Z) {B} (k : unit -> M B) (w : world) :
  p <> NULL -> bind (assert p) k w = k tt w.
Proof. intros Hp. unfold bind, assert. now rewrite (is_null_false p Hp). Qed.

Lemma bind_read_game (g : Z) (F : Game_field) {B} (k : Z -> M B) (w : world)
    (gm : Game) (v : Z) :
  games w !! g = Some gm -> gm F = Some v ->
  bind (read_game g F) k w = k v w.
Proof.
  intros Hg HF. unfold bind, read_game.
  destruct (games w !! g) as [gm' |]; [| discriminate].
  injection Hg as ->. now rewrite HF.
Qed.

Lemma bind_write_game (g : Z) (F : Game_field) (v : Z) {B} (k : unit -> M B)
    (w : world) (gm : Game) :
  games w !! g = Some gm ->
  bind (write_game g F v) k w =
  k tt (set_games (<[g := Game_write F v gm]> (games w)) w).
Proof.
  intros Hg. unfold bind, write_game.
  destruct (games w !! g) as [gm' |]; [| discriminate].
  now injection Hg as ->.
Qed.

Lemma bind_assert_event (e : SDL_Event) {B} (k : SDL_Event -> M B) (w : world) :
  bind (assert_event (Some e)) k w = k e w.
Proof. reflexivity. Qed.

Lemma bind_assoc {A B D} (m : M A) (k1 : A -> M B) (k2 : B -> M D) (w : world) :
  bind (bind m k1) k2 w = bind m (fun a => bind (k1 a) k2) w.
Proof. unfold bind. now destruct (m w). Qed.

Lemma Game_member_eq (w : world) (g : Z) (gm : Game) (F : Game_field) :
  games w !! g = Some gm -> Game_member w g F = gm F.
Proof.
  intros Hg. unfold Game_member.
  destruct (games w !! g) as [gm' |]; [| discriminate]. now injection Hg as ->.
Qed.

Lemma bind_inv {A B} (m : M A) (k : A -> M B) (w w' : world) (v : B) :
  bind m k w = Ret v w' ->
  exists a w1, m w = Ret a w1 /\ k a w1 = Ret v w'.
Proof.
  unfold bind. destruct (m w) as [a w1 | |]; try discriminate. eauto.
Qed.

Lemma bind_ext {A B} (m : M A) (k1 k2 : A -> M B) (w : world) :
  (forall a w1, m w = Ret a w1 -> k1 a w1 = k2 a w1) ->
  bind m k1 w = bind m k2 w.
Proof. intros H. unfold bind. destruct (m w); auto. Qed.

Ltac game_field :=
  unfold Game_write; cbn [Game_field_eqb];
  first [eassumption | reflexivity].

Ltac game_lookup :=
  first [eassumption | wsimpl; apply lookup_insert_eq].

Ltac rd := erewrite bind_read_game; [| game_lookup | game_field].
Ltac wr := erewrite bind_write_game; [| game_lookup].

Ltac invert_run :=
  repeat match goal with
    | H : bind _ _ _ = Ret _ _ |- _ => apply bind_inv in H as (? & ? & _ & H)
    | H : ret _ _ = Ret _ _ |- _ => unfold ret in H; injection H as <- <-
    | H : (if ?c then _ else _) _ = Ret _ _ |- _ => destruct c
    | H : match Game_state_of ?s with _ => _ end _ = Ret _ _ |- _ =>
        destruct (Game_state_of s) as [[] |]
    end.

Section Game_properties.

Context {float : Type} (C : @Game_collaborators float).

(** X8: [GAME_STATE_QUIT] is inert.  On a [Game] in that state
    [game_event], [game_input], [game_sound], [game_render] and
    [game_update] all return 0 without calling any other module and
    without changing anything, and [game_over_check] answers 1. *)
Theorem game_quit_is_inert (game : Z) (gm : Game) (w : world) :
  game <> NULL -> games w !! game = Some gm ->
  gm F_state = Some (Game_state_value GAME_STATE_QUIT) ->
  (forall e, game_event C game (Some e) w = Ret 0 w) /\
  (forall keyboard_state the_stick_of_joy, keyboard_state <> NULL ->
     game_input C game keyboard_state the_stick_of_joy w = Ret 0 w) /\
  game_sound C game w = Ret 0 w /\
  game_render C game w = Ret 0 w /\
  (forall delta_time, float_gt_zero C delta_time = true ->
     game_update C game delta_time w = Ret 0 w) /\
  game_over_check game w = Ret 1 w.
Proof.
  intros Hgame Hg Hst.
  refine (conj _ (conj _ (conj _ (conj _ (conj _ _))))).
  - intros e. unfold game_event.
    rewrite (bind_assert game _ w Hgame). rewrite bind_assert_event.
    rewrite (bind_read_game game F_state _ w gm _ Hg Hst). reflexivity.
  - intros ks stick Hks. unfold game_input.
    rewrite (bind_assert game _ w Hgame), (bind_assert ks _ w Hks).
    rewrite (bind_read_game game F_state _ w gm _ Hg Hst). reflexivity.
  - unfold game_sound.
    rewrite (bind_read_game game F_state _ w gm _ Hg Hst). reflexivity.
  - unfold game_render. rewrite (bind_assert game _ w Hgame).
    rewrite (bind_read_game game F_state _ w gm _ Hg Hst). reflexivity.
  - intros dt Hdt. unfold game_update. rewrite (bind_assert game _ w Hgame).
    unfold bind at 1, assert_true. rewrite Hdt.
    rewrite (bind_read_game game F_state _ w gm _ Hg Hst). reflexivity.
  - unfold game_over_check.
    rewrite (bind_read_game game F_state _ w gm _ Hg Hst). reflexivity.
Qed.

(** X9: a quit request marks the game over before any other module sees
    it.  On [SDL_QUIT] in any state but [GAME_STATE_QUIT], [game_event]
    first sets the state to [GAME_STATE_QUIT]; in the console and in the
    level picker it then returns 0 at once, while running or paused it
    hands the event to [level_event], which starts in a world where
    [game_over_check] answers 1, and returns that result.  When
    [game_event] has returned, [game_over_check] answers 1: always in the
    console and in the level picker, and while running or paused provided
    that [level_event] returns and leaves the memory of the [Game]
    alone. *)
Theorem game_event_quit (game : Z) (gm : Game) (s : Game_state) (w : world) :
  game <> NULL -> games w !! game = Some gm ->
  gm F_state = Some (Game_state_value s) -> s <> GAME_STATE_QUIT ->
  let w' := set_games
              (<[game := Game_write F_state
                           (Game_state_value GAME_STATE_QUIT) gm]> (games w))
              w in
  game_over_check game w' = Ret 1 w' /\
  game_event C game (Some SDL_QUIT) w =
    match s with
    | GAME_STATE_RUNNING | GAME_STATE_PAUSE =>
        (let* level := read_game game F_level in
         level_event C level SDL_QUIT) w'
    | _ => Ret 0 w'
    end /\
  ((s = GAME_STATE_RUNNING \/ s = GAME_STATE_PAUSE ->
    exists level',
      gm F_level = Some level' /\
      returns_keeping_games (level_event C level' SDL_QUIT)) ->
   exists r w'',
     game_event C game (Some SDL_QUIT) w = Ret r w'' /\
     Game_member w'' game F_state
       = Some (Game_state_value GAME_STATE_QUIT) /\
     game_over_check game w'' = Ret 1 w'').
Proof.
  intros Hgame Hg Hst Hs w'.
  assert (Hover : game_over_check game w' = Ret 1 w').
  { unfold game_over_check. subst w'. now rd. }
  assert (Hrun : game_event C game (Some SDL_QUIT) w =
                 match s with
                 | GAME_STATE_RUNNING | GAME_STATE_PAUSE =>
                     (let* level := read_game game F_level in
                      level_event C level SDL_QUIT) w'
                 | _ => Ret 0 w'
                 end).
  { unfold game_event. rewrite (bind_assert game _ w Hgame), bind_assert_event.
    rd. destruct s; cbn [Game_state_value Game_state_of Z.eqb Pos.eqb];
      try (now contradiction Hs).
    + unfold game_event_running.
      rewrite (bind_assert game _ w Hgame), bind_assert_event.
      rewrite bind_assoc. now wr.
    + unfold game_event_pause.
      rewrite (bind_assert game _ w Hgame), bind_assert_event.
      cbv iota. now wr.
    + unfold game_event_console. unfold bind at 1, deref_event. now wr.
    + unfold game_event_level_picker.
      rewrite (bind_assert game _ w Hgame), bind_assert_event. now wr. }
  split; [exact Hover |]. split; [exact Hrun |].
  intros Hlevel. rewrite Hrun.
  assert (Hg' : games w' !! game
                = Some (Game_write F_state (Game_state_value GAME_STATE_QUIT) gm))
    by (subst w'; wsimpl; apply lookup_insert_eq).
  assert (Hafter : forall (r : Z) w'',
            games w'' = games w' ->
            Game_member w'' game F_state
              = Some (Game_state_value GAME_STATE_QUIT) /\
            game_over_check game w'' = Ret 1 w'').
  { intros r w'' G.
    assert (Hg'' : games w'' !! game
                   = Some (Game_write F_state
                             (Game_state_value GAME_STATE_QUIT) gm))
      by (now rewrite G).
    split; [now rewrite (Game_member_eq w'' game _ F_state Hg'') |].
    unfold game_over_check.
    erewrite bind_read_game; [| exact Hg'' | reflexivity]. reflexivity. }
  assert (Hforward :
            (exists level',
               gm F_level = Some level' /\
               returns_keeping_games (level_event C level' SDL_QUIT)) ->
            exists r w'',
              (let* level := read_game game F_level in
               level_event C level SDL_QUIT) w' = Ret r w'' /\
              Game_member w'' game F_state
                = Some (Game_state_value GAME_STATE_QUIT) /\
              game_over_check game w'' = Ret 1 w'').
  { intros (level' & Hlv & K).
    destruct (K w') as (r & w'' & R & G).
    exists r, w''. split; [| exact (Hafter r w'' G)].
    erewrite bind_read_game; [exact R | exact Hg' |].
    unfold Game_write. cbn [Game_field_eqb]. exact Hlv. }
  destruct s.
  - apply Hforward, Hlevel. now left.
  - apply Hforward, Hlevel. now right.
  - exists 0, w'. split; [reflexivity | exact (Hafter 0 w' eq_refl)].
  - exists 0, w'. split; [reflexivity | exact (Hafter 0 w' eq_refl)].
  - now contradiction Hs.
Qed.

(** X10: the cursor follows the mouse while the game runs and in the
    level picker, and only then.  On a mouse motion, [game_event] stores
    the position in [cursor_x] and [cursor_y] in these two states (and
    returns 0 at once in the level picker); while paused and in the
    console it leaves the [Game] as it is and only forwards the event;
    in [GAME_STATE_QUIT] it does nothing. *)
Theorem game_event_mouse_motion (game : Z) (gm : Game) (s : Game_state)
    (x y : Z) (w : world) :
  game <> NULL -> games w !! game = Some gm ->
  gm F_state = Some (Game_state_value s) ->
  let e := SDL_MOUSEMOTION x y in
  let w' := set_games
              (<[game := Game_write F_cursor_y y
                           (Game_write F_cursor_x x gm)]> (games w)) w in
  game_event C game (Some e) w =
    match s with
    | GAME_STATE_RUNNING =>
        (let* level := read_game game F_level in level_event C level e) w'
    | GAME_STATE_LEVEL_PICKER => Ret 0 w'
    | GAME_STATE_PAUSE =>
        (let* level := read_game game F_level in level_event C level e) w
    | GAME_STATE_CONSOLE =>
        (let* console := read_game game F_console in
         console_handle_event C console e) w
    | GAME_STATE_QUIT => Ret 0 w
    end.
Proof.
  intros Hgame Hg Hst e w'. subst e.
  unfold game_event. rewrite (bind_assert game _ w Hgame), bind_assert_event.
  rd. destruct s; cbn [Game_state_value Game_state_of Z.eqb Pos.eqb].
  - unfold game_event_running.
    rewrite (bind_assert game _ w Hgame), bind_assert_event. cbv iota.
    rewrite !bind_assoc. wr. rewrite bind_assoc. wr. subst w'. wsimpl.
    now rewrite insert_insert_eq.
  - unfold game_event_pause.
    rewrite (bind_assert game _ w Hgame), bind_assert_event. reflexivity.
  - reflexivity.
  - unfold game_event_level_picker.
    rewrite (bind_assert game _ w Hgame), bind_assert_event. cbv iota.
    wr. wr. subst w'. wsimpl. now rewrite insert_insert_eq.
  - reflexivity.
Qed.

(** X11: in the level picker the cursor is drawn where the mouse last
    moved: after [game_event] on a mouse motion to [(x, y)], the next
    [game_render] hands [SDL_RenderCopy] the cursor texture with the
    destination rectangle [(x, y, 32, 32)], once [level_picker_render]
    has succeeded (and has left the [Game] alone), and returns -1 when
    one of the two fails. *)
Theorem game_render_after_mouse_motion (game : Z) (gm : Game)
    (level_picker' camera' renderer' texture' x y : Z) (w : world) :
  game <> NULL -> games w !! game = Some gm ->
  gm F_state = Some (Game_state_value GAME_STATE_LEVEL_PICKER) ->
  gm F_level_picker = Some level_picker' -> gm F_camera = Some camera' ->
  gm F_renderer = Some renderer' -> gm F_texture_cursor = Some texture' ->
  keeps_games (level_picker_render C level_picker' camera' renderer') ->
  exists w',
    game_event C game (Some (SDL_MOUSEMOTION x y)) w = Ret 0 w' /\
    slots w' = slots w /\ lts w' = lts w /\ trace w' = trace w /\
    game_render C game w' =
      (let* r := level_picker_render C level_picker' camera' renderer' in
       if r <? 0 then ret (-1)
       else
         let* r := SDL_RenderCopy C renderer' texture'
                     (0, 0, 32, 32) (x, y, 32, 32) in
         if r <? 0 then ret (-1) else ret 0) w'.
Proof.
  intros Hgame Hg Hst Hlp Hcam Hrend Htex Hkeep.
  eexists. split.
  { unfold game_event. rewrite (bind_assert game _ w Hgame), bind_assert_event.
    rd. cbn [Game_state_value Game_state_of Z.eqb Pos.eqb].
    unfold game_event_level_picker.
    rewrite (bind_assert game _ w Hgame), bind_assert_event. cbv iota.
    wr. wr. reflexivity. }
  wsimpl. split; [reflexivity |]. split; [reflexivity |].
  split; [reflexivity |].
  unfold game_render. rewrite (bind_assert game _ _ Hgame).
  rd. cbn [Game_state_value Game_state_of Z.eqb Pos.eqb].
  rd. rd. rd. apply bind_ext. intros r w1 Hrun.
  destruct (r <? 0); [reflexivity |].
  apply Hkeep in Hrun. wsimpl.
  assert (Hg1 : games w1 !! game =
                Some (Game_write F_cursor_y y (Game_write F_cursor_x x gm)))
    by (rewrite Hrun; apply lookup_insert_eq).
  rd. rd. rd. rd. reflexivity.
Qed.

(** X12: pausing and resuming is a round trip on the [Game].  With a
    camera, sound samples and a level whose calls return and leave the
    [Game] alone, the key [p] takes a running game to
    [GAME_STATE_PAUSE], and the key [p] again takes it back: after the
    two events every member of the [Game] has the value it had before. *)
Theorem game_pause_roundtrip (game : Z) (gm : Game) (camera' samples' level' : Z)
    (w : world) :
  game <> NULL -> games w !! game = Some gm ->
  gm F_state = Some (Game_state_value GAME_STATE_RUNNING) ->
  gm F_camera = Some camera' -> gm F_sound_samples = Some samples' ->
  gm F_level = Some level' ->
  returns_keeping_games (camera_toggle_blackwhite_mode C camera') ->
  returns_keeping_games (sound_samples_toggle_pause C samples') ->
  returns_keeping_games (level_event C level' (SDL_KEYDOWN SDLK_p)) ->
  exists r1 w1 r2 w2,
    game_event C game (Some (SDL_KEYDOWN SDLK_p)) w = Ret r1 w1 /\
    Game_member w1 game F_state = Some (Game_state_value GAME_STATE_PAUSE) /\
    game_event C game (Some (SDL_KEYDOWN SDLK_p)) w1 = Ret r2 w2 /\
    forall F, Game_member w2 game F = Game_member w game F.
Proof.
  intros Hgame Hg Hst Hcam Hss Hlv Kcam Kss Klv.
  (* the first [p]: running to paused *)
  set (gm1 := Game_write F_state (Game_state_value GAME_STATE_PAUSE) gm).
  set (wa := set_games (<[game := gm1]> (games w)) w).
  destruct (Kcam wa) as ([] & wb & Rb & Gb).
  destruct (Kss wb) as ([] & wc & Rc & Gc).
  destruct (Klv wc) as (r1 & w1 & R1 & G1).
  assert (Hg1 : games w1 !! game = Some gm1).
  { rewrite G1, Gc, Gb. apply lookup_insert_eq. }
  assert (E1 : game_event C game (Some (SDL_KEYDOWN SDLK_p)) w = Ret r1 w1).
  { unfold game_event. rewrite (bind_assert game _ w Hgame), bind_assert_event.
    rd. cbn [Game_state_value Game_state_of Z.eqb Pos.eqb].
    unfold game_event_running.
    rewrite (bind_assert game _ w Hgame), bind_assert_event. cbv iota.
    rewrite !bind_assoc. wr. fold gm1. fold wa.
    rewrite bind_assoc.
    erewrite bind_read_game;
      [| subst wa; wsimpl; apply lookup_insert_eq | subst gm1; game_field].
    rewrite bind_assoc, (bind_Ret _ _ _ _ _ Rb).
    rewrite bind_assoc.
    erewrite bind_read_game;
      [| rewrite Gb; apply lookup_insert_eq | subst gm1; game_field].
    rewrite bind_assoc, (bind_Ret _ _ _ _ _ Rc).
    change (bind (ret None) ?k wc) with (k None wc). cbv beta iota.
    erewrite bind_read_game;
      [| rewrite Gc, Gb; apply lookup_insert_eq | subst gm1; game_field].
    exact R1. }
  (* the second [p]: paused to running *)
  set (gm2 := Game_write F_state (Game_state_value GAME_STATE_RUNNING) gm1).
  set (wd := set_games (<[game := gm2]> (games w1)) w1).
  destruct (Kcam wd) as ([] & we & Re & Ge).
  destruct (Kss we) as ([] & wf & Rf & Gf).
  destruct (Klv wf) as (r2 & w2 & R2 & G2).
  exists r1, w1, r2, w2. split; [exact E1 |].
  split; [now rewrite (Game_member_eq w1 game gm1 _ Hg1) |].
  split.
  - unfold game_event. rewrite (bind_assert game _ w1 Hgame), bind_assert_event.
    erewrite bind_read_game; [| exact Hg1 | reflexivity].
    cbn [Game_state_value Game_state_of Z.eqb Pos.eqb].
    unfold game_event_pause.
    rewrite (bind_assert game _ w1 Hgame), bind_assert_event. cbv iota.
    rewrite !bind_assoc. erewrite bind_write_game; [| exact Hg1].
    fold gm2. fold wd. rewrite bind_assoc.
    erewrite bind_read_game;
      [| subst wd; wsimpl; apply lookup_insert_eq | subst gm2 gm1; game_field].
    rewrite bind_assoc, (bind_Ret _ _ _ _ _ Re). rewrite bind_assoc.
    erewrite bind_read_game;
      [| rewrite Ge; apply lookup_insert_eq | subst gm2 gm1; game_field].
    rewrite (bind_Ret _ _ _ _ _ Rf).
    erewrite bind_read_game;
      [| rewrite Gf, Ge; apply lookup_insert_eq | subst gm2 gm1; game_field].
    exact R2.
  - intros F. rewrite (Game_member_eq w game gm F Hg).
    rewrite (Game_member_eq w2 game gm2 F)
      by (rewrite G2, Gf, Ge; apply lookup_insert_eq).
    subst gm2 gm1. unfold Game_write.
    destruct F; cbn [Game_field_eqb]; try reflexivity. now rewrite Hst.
Qed.

(** X13: [game_render] and [game_update] report failure with -1 and
    nothing else: whatever the other modules do and return, a call that
    returns returns 0 or -1. *)
Theorem game_render_update_result (game : Z) (delta_time : float)
    (w w' : world) (v : Z) :
  (game_render C game w = Ret v w' -> v = 0 \/ v = -1) /\
  (game_update C game delta_time w = Ret v w' -> v = 0 \/ v = -1).
Proof.
  split; intros H.
  - unfold game_render in H. invert_run; auto.
  - unfold game_update in H. invert_run; auto.
Qed.

End Game_properties.

Lemma game_quit_is_inert_witness :
  game_event idle_collaborators 100 (Some (SDL_KEYDOWN SDLK_p))
    (world_example GAME_STATE_QUIT) = Ret 0 (world_example GAME_STATE_QUIT) /\
  game_update idle_collaborators 100 1 (world_example GAME_STATE_QUIT)
    = Ret 0 (world_example GAME_STATE_QUIT) /\
  game_over_check 100 (world_example GAME_STATE_QUIT)
    = Ret 1 (world_example GAME_STATE_QUIT).
Proof.
  destruct (game_quit_is_inert idle_collaborators 100
              (game_example GAME_STATE_QUIT) (world_example GAME_STATE_QUIT))
    as (H1 & _ & _ & _ & H5 & H6);
    [discriminate | apply lookup_singleton_eq | reflexivity |].
  split; [apply H1 |]. split; [apply H5; reflexivity | exact H6].
Defined.

Lemma game_event_quit_witness :
  exists r w'',
    game_event idle_collaborators 100 (Some SDL_QUIT)
      (world_example GAME_STATE_RUNNING) = Ret r w'' /\
    Game_member w'' 100 F_state = Some (Game_state_value GAME_STATE_QUIT) /\
    game_over_check 100 w'' = Ret 1 w''.
Proof.
  refine (proj2 (proj2 (game_event_quit idle_collaborators 100
                          (game_example GAME_STATE_RUNNING) GAME_STATE_RUNNING
                          (world_example GAME_STATE_RUNNING) _ _ _ _)) _).
  - discriminate.
  - apply lookup_singleton_eq.
  - reflexivity.
  - discriminate.
  - intros _. exists 110. split; [reflexivity |].
    intros w. eexists _, w. split; reflexivity.
Defined.

Lemma game_event_mouse_motion_witness :
  game_event idle_collaborators 100 (Some (SDL_MOUSEMOTION 7 9))
    (world_example GAME_STATE_PAUSE)
  = Ret 0 (world_example GAME_STATE_PAUSE) /\
  game_event idle_collaborators 100 (Some (SDL_MOUSEMOTION 7 9))
    (world_example GAME_STATE_LEVEL_PICKER)
  = Ret 0
      (set_games
         (<[100 := Game_write F_cursor_y 9
                     (Game_write F_cursor_x 7
                        (game_example GAME_STATE_LEVEL_PICKER))]>
            (games (world_example GAME_STATE_LEVEL_PICKER)))
         (world_example GAME_STATE_LEVEL_PICKER)).
Proof.
  split.
  - rewrite (game_event_mouse_motion idle_collaborators 100
               (game_example GAME_STATE_PAUSE) GAME_STATE_PAUSE 7 9
               (world_example GAME_STATE_PAUSE));
      [reflexivity | discriminate | apply lookup_singleton_eq | reflexivity].
  - refine (game_event_mouse_motion idle_collaborators 100
              (game_example GAME_STATE_LEVEL_PICKER) GAME_STATE_LEVEL_PICKER
              7 9 (world_example GAME_STATE_LEVEL_PICKER) _ _ _);
      [discriminate | apply lookup_singleton_eq | reflexivity].
Defined.

Lemma game_render_after_mouse_motion_witness :
  exists w',
    game_event idle_collaborators 100 (Some (SDL_MOUSEMOTION 7 9))
      (world_example GAME_STATE_LEVEL_PICKER) = Ret 0 w' /\
    game_render idle_collaborators 100 w' =
      (let* r := level_picker_render idle_collaborators 103 105 53 in
       if r <? 0 then ret (-1)
       else
         let* r := SDL_RenderCopy idle_collaborators 53 107
                     (0, 0, 32, 32) (7, 9, 32, 32) in
         if r <? 0 then ret (-1) else ret 0) w'.
Proof.
  destruct (game_render_after_mouse_motion idle_collaborators 100
              (game_example GAME_STATE_LEVEL_PICKER) 103 105 53 107 7 9
              (world_example GAME_STATE_LEVEL_PICKER))
    as (w' & H1 & _ & _ & _ & H2).
  - discriminate.
  - apply lookup_singleton_eq.
  - reflexivity.
  - reflexivity.
  - reflexivity.
  - reflexivity.
  - reflexivity.
  - intros w a w' [= _ <-]. reflexivity.
  - exists w'. split; [exact H1 | exact H2].
Defined.

Lemma game_pause_roundtrip_witness :
  exists r1 w1 r2 w2,
    game_event idle_collaborators 100 (Some (SDL_KEYDOWN SDLK_p))
      (world_example GAME_STATE_RUNNING) = Ret r1 w1 /\
    Game_member w1 100 F_state = Some (Game_state_value GAME_STATE_PAUSE) /\
    game_event idle_collaborators 100 (Some (SDL_KEYDOWN SDLK_p)) w1
      = Ret r2 w2 /\
    forall F, Game_member w2 100 F
              = Game_member (world_example GAME_STATE_RUNNING) 100 F.
Proof.
  refine (game_pause_roundtrip idle_collaborators 100
            (game_example GAME_STATE_RUNNING) 105 104 110
            (world_example GAME_STATE_RUNNING) _ _ _ _ _ _ _ _ _);
    [discriminate | apply lookup_singleton_eq
    | reflexivity | reflexivity | reflexivity | reflexivity
    | intros w; eexists _, w; split; reflexivity
    | intros w; eexists _, w; split; reflexivity
    | intros w; eexists _, w; split; reflexivity].
Defined.

Lemma game_render_update_result_witness :
  game_render idle_collaborators 100 (world_example GAME_STATE_LEVEL_PICKER)
    = Ret 0 (world_example GAME_STATE_LEVEL_PICKER) /\
  (0 = 0 \/ 0 = -1).
Proof.
  assert (H : game_render idle_collaborators 100
                (world_example GAME_STATE_LEVEL_PICKER)
              = Ret 0 (world_example GAME_STATE_LEVEL_PICKER))
    by (vm_compute; reflexivity).
  split; [exact H |].
  exact (proj1 (game_render_update_result idle_collaborators 100 1
                  (world_example GAME_STATE_LEVEL_PICKER)
                  (world_example GAME_STATE_LEVEL_PICKER) 0) H).
Defined.

(** ** The console *)

Section Game_console.

Context {float : Type} (C : @Game_collaborators float).

(** X22: opening and closing the console is a round trip on the [Game],
    and the level gets no input in between.  With a text input, a console
    and a level whose calls return and leave the [Game] alone, releasing
    the key [`] or [c] takes a running game to [GAME_STATE_CONSOLE];
    there [game_input] returns 0 and calls nothing; pressing Escape
    stops the text input and returns 0, and every member of the [Game]
    has the value it had before the two events. *)
Theorem game_console_roundtrip (game : Z) (gm : Game) (console' level' : Z)
    (key : SDL_Keycode) (w : world) :
  game <> NULL -> games w !! game = Some gm ->
  gm F_state = Some (Game_state_value GAME_STATE_RUNNING) ->
  gm F_console = Some console' -> gm F_level = Some level' ->
  key = SDLK_BACKQUOTE \/ key = SDLK_c ->
  returns_keeping_games (SDL_StartTextInput C) ->
  returns_keeping_games (console_slide_down C console') ->
  returns_keeping_games (level_event C level' (SDL_KEYUP key)) ->
  returns_keeping_games (SDL_StopTextInput C) ->
  exists r1 w1 w2 w3,
    game_event C game (Some (SDL_KEYUP key)) w = Ret r1 w1 /\
    Game_member w1 game F_state = Some (Game_state_value GAME_STATE_CONSOLE) /\
    (forall keyboard_state the_stick_of_joy, keyboard_state <> NULL ->
       game_input C game keyboard_state the_stick_of_joy w1 = Ret 0 w1) /\
    SDL_StopTextInput C w1 = Ret tt w2 /\
    game_event C game (Some (SDL_KEYDOWN SDLK_ESCAPE)) w1 = Ret 0 w3 /\
    trace w3 = trace w2 /\
    forall F, Game_member w3 game F = Game_member w game F.
Proof.
  intros Hgame Hg Hst Hcon Hlv Hkey Kstart Kslide Klv Kstop.
  destruct (Kstart w) as ([] & wa & Ra & Ga).
  set (gm1 := Game_write F_state (Game_state_value GAME_STATE_CONSOLE) gm).
  set (wb := set_games (<[game := gm1]> (games wa)) wa).
  destruct (Kslide wb) as ([] & wc & Rc & Gc).
  destruct (Klv wc) as (r1 & w1 & R1 & G1).
  assert (Hga : games wa !! game = Some gm) by (now rewrite Ga).
  assert (Hg1 : games w1 !! game = Some gm1).
  { rewrite G1, Gc. apply lookup_insert_eq. }
  destruct (Kstop w1) as ([] & w2 & R2 & G2).
  assert (Hg2 : games w2 !! game = Some gm1) by (now rewrite G2).
  set (gm2 := Game_write F_state (Game_state_value GAME_STATE_RUNNING) gm1).
  exists r1, w1, w2, (set_games (<[game := gm2]> (games w2)) w2).
  refine (conj _ (conj _ (conj _ (conj R2 (conj _ (conj eq_refl _)))))).
  - unfold game_event. rewrite (bind_assert game _ w Hgame), bind_assert_event.
    rd. cbn [Game_state_value Game_state_of Z.eqb Pos.eqb].
    unfold game_event_running.
    rewrite (bind_assert game _ w Hgame), bind_assert_event.
    destruct Hkey as [-> | ->]; cbv iota;
      rewrite !bind_assoc, (bind_Ret _ _ _ _ _ Ra);
      rewrite bind_assoc; (erewrite bind_write_game; [| exact Hga]);
      fold gm1; fold wb; rewrite bind_assoc;
      (erewrite bind_read_game;
        [| subst wb; wsimpl; apply lookup_insert_eq | subst gm1; game_field]);
      rewrite bind_assoc, (bind_Ret _ _ _ _ _ Rc);
      change (bind (ret None) ?k wc) with (k None wc); cbv beta iota;
      (erewrite bind_read_game;
        [| rewrite Gc; apply lookup_insert_eq | subst gm1; game_field]);
      exact R1.
  - now rewrite (Game_member_eq w1 game gm1 _ Hg1).
  - intros ks stick Hks. unfold game_input.
    rewrite (bind_assert game _ w1 Hgame), (bind_assert ks _ w1 Hks).
    erewrite bind_read_game; [| exact Hg1 | reflexivity].
    reflexivity.
  - unfold game_event. rewrite (bind_assert game _ w1 Hgame), bind_assert_event.
    erewrite bind_read_game; [| exact Hg1 | reflexivity].
    cbn [Game_state_value Game_state_of Z.eqb Pos.eqb].
    unfold game_event_console.
    change (bind (deref_event (Some ?e)) ?k w1) with (k e w1). cbv beta iota.
    rewrite (bind_Ret _ _ _ _ _ R2).
    erewrite bind_write_game; [| exact Hg2]. reflexivity.
  - intros F. rewrite (Game_member_eq w game gm F Hg).
    rewrite (Game_member_eq _ game gm2 F)
      by (wsimpl; apply lookup_insert_eq).
    subst gm2 gm1. unfold Game_write.
    destruct F; cbn [Game_field_eqb]; try reflexivity. now rewrite Hst.
Qed.

End Game_console.

Lemma game_console_roundtrip_witness :
  exists r1 w1 w2 w3,
    game_event idle_collaborators 100 (Some (SDL_KEYUP SDLK_BACKQUOTE))
      (world_example GAME_STATE_RUNNING) = Ret r1 w1 /\
    Game_member w1 100 F_state = Some (Game_state_value GAME_STATE_CONSOLE) /\
    (forall keyboard_state the_stick_of_joy, keyboard_state <> NULL ->
       game_input idle_collaborators 100 keyboard_state the_stick_of_joy w1
       = Ret 0 w1) /\
    SDL_StopTextInput idle_collaborators w1 = Ret tt w2 /\
    game_event idle_collaborators 100 (Some (SDL_KEYDOWN SDLK_ESCAPE)) w1
      = Ret 0 w3 /\
    trace w3 = trace w2 /\
    forall F, Game_member w3 100 F
              = Game_member (world_example GAME_STATE_RUNNING) 100 F.
Proof.
  refine (game_console_roundtrip idle_collaborators 100
            (game_example GAME_STATE_RUNNING) 106 110 SDLK_BACKQUOTE
            (world_example GAME_STATE_RUNNING) _ _ _ _ _ _ _ _ _ _);
    [discriminate | apply lookup_singleton_eq
    | reflexivity | reflexivity | reflexivity | left; reflexivity
    | intros w; eexists _, w; split; reflexivity
    | intros w; eexists _, w; split; reflexivity
    | intros w; eexists _, w; split; reflexivity
    | intros w; eexists _, w; split; reflexivity].
Defined.

(** ** Loading a level *)

Section Game_level_loading.

Context {float : Type} (C : @Game_collaborators float).

Lemma not_negative (r : Z) : 0 <= r -> (r <? 0) = false.
Proof. intros H. now apply Z.ltb_ge. Qed.

(** X14: the first level that is picked is registered for teardown.  In
    the level picker with no level loaded yet, when the level picker
    reports a selection and [create_level_from_file] yields a level (and
    the calls of the other modules return without touching the
    bookkeeping), [game_update] returns 0, the game is running, [level]
    is the new level, and the Lifetime of the [Game] tracks it, with
    [destroy_level], after everything it tracked before. *)
Theorem game_update_first_level (game lt picker camera' broadcast' folder
    level' : Z) (delta_time : float) (gm : Game) (rs : list (Z * Z))
    (w : world) :
  game <> NULL -> float_gt_zero C delta_time = true ->
  games w !! game = Some gm ->
  gm F_state = Some (Game_state_value GAME_STATE_LEVEL_PICKER) ->
  gm F_level_picker = Some picker -> gm F_camera = Some camera' ->
  gm F_level = Some NULL -> gm F_lt = Some lt ->
  gm F_broadcast = Some broadcast' ->
  external_call (fun r => 0 <= r) (level_picker_update C picker delta_time) ->
  external_call (fun r => 0 <= r)
    (level_picker_enter_camera_event C picker camera') ->
  external_call (fun f => f = folder) (level_picker_selected_level C picker) ->
  external_call (fun l => l = level')
    (create_level_from_file C folder broadcast') ->
  folder <> NULL -> level' <> NULL -> destroy_level C <> NULL ->
  lt_holds w lt rs -> hd true (oracle w) = true ->
  exists w',
    game_update C game delta_time w = Ret 0 w' /\
    Game_member w' game F_state = Some (Game_state_value GAME_STATE_RUNNING) /\
    Game_member w' game F_level = Some level' /\
    lt_holds w' lt (rs ++ [(level', destroy_level C)]).
Proof.
  intros Hgame Hdt Hg Hst Hlp Hcam Hlevel Hlt Hb K1 K2 K3 K4
    Hfolder Hlevel' Hdl Hholds Ho.
  destruct (K1 w) as (r1 & w1 & R1 & P1 & S1 & L1 & G1 & O1 & _).
  destruct (K2 w1) as (r2 & w2 & R2 & P2 & S2 & L2 & G2 & O2 & _).
  destruct (K3 w2) as (f & w3 & R3 & -> & S3 & L3 & G3 & O3 & _).
  destruct (K4 w3) as (l & w4 & R4 & -> & S4 & L4 & G4 & O4 & _).
  assert (Hg1 : games w1 !! game = Some gm) by congruence.
  assert (Hg2 : games w2 !! game = Some gm) by congruence.
  assert (Hg3 : games w3 !! game = Some gm) by congruence.
  assert (Hg4 : games w4 !! game = Some gm) by congruence.
  assert (Hholds4 : lt_holds w4 lt rs).
  { apply (lt_holds_frame w); [congruence | congruence | exact Hholds]. }
  destruct Hholds4 as (ps & Hps & Hnd & Hall).
  assert (Ho4 : hd true (oracle w4) = true) by congruence.
  pose proof (lt_push_succeeds lt level' (destroy_level C) w4 ps
                Hlevel' Hdl Ho4 Hps) as Rpush.
  eexists. split.
  { unfold game_update. rewrite (bind_assert game _ w Hgame).
    unfold bind at 1, assert_true. rewrite Hdt.
    rd. cbn [Game_state_value Game_state_of Z.eqb Pos.eqb].
    rd. rewrite (bind_Ret _ _ _ _ _ R1), (not_negative r1 P1).
    rd. rd. rewrite (bind_Ret _ _ _ _ _ R2), (not_negative r2 P2).
    rd. rewrite (bind_Ret _ _ _ _ _ R3), (is_null_false folder Hfolder).
    rd. change (is_null NULL) with true. cbv iota.
    rewrite !bind_assoc. rd. rewrite bind_assoc. rd.
    rewrite bind_assoc, (bind_Ret _ _ _ _ _ R4).
    unfold PUSH_LT. rewrite bind_assoc, (bind_Ret _ _ _ _ _ Rpush).
    erewrite bind_write_game; [| wsimpl; exact Hg4].
    rd. rewrite (is_null_false level' Hlevel').
    wr. reflexivity. }
  wsimpl.
  split; [erewrite Game_member_eq; [| wsimpl; apply lookup_insert_eq];
          reflexivity |].
  split; [erewrite Game_member_eq; [| wsimpl; apply lookup_insert_eq];
          reflexivity |].
  assert (H4 : lt_holds w4 lt rs) by (exists ps; now repeat split).
  pose proof (lt_push_holds lt level' (destroy_level C) rs w4 _ H4 Rpush Hlevel')
    as H5.
  eapply lt_holds_frame; [| | exact H5]; reflexivity.
Qed.

(** Replacing in place, in terms of what the Lifetime tracks. *)
Lemma lt_reset_replaces (lt old f new : Z) (pre post : list (Z * Z))
    (constructor : M Z) (w w2 : world) :
  lt_holds w lt (pre ++ (old, f) :: post) -> old <> NULL -> new <> NULL ->
  Forall (fun rf => fst rf <> old) pre ->
  constructor w = Ret new w2 ->
  slots w2 = slots w -> lts w2 = lts w ->
  exists slot,
    RESET_LT lt old constructor w =
      Ret new (set_slots (<[slot := Lt_slot new f]> (slots w2))
                 (set_trace (trace w2 ++ [EvRelease f old]) w2)) /\
    lt_holds (set_slots (<[slot := Lt_slot new f]> (slots w2))
                (set_trace (trace w2 ++ [EvRelease f old]) w2)) lt
      (pre ++ (new, f) :: post).
Proof.
  intros (ps & Hps & Hnd & Hall) Hold Hnew Hpre Hctor Hs2 Hl2.
  apply Forall2_app_inv_r in Hall as (ps1 & ps2 & H1 & H2 & ->).
  apply Forall2_cons_inv_r in H2 as (slot & ps3 & (Hslot & Hs & Hf) & H3 & ->).
  cbn in Hs, Hf.
  assert (Hno : Forall (not_owner w2 old) ps1).
  { apply (not_owner_frame w); [exact Hs2 |].
    clear -H1 Hpre. induction H1 as [| q rf ps1 pre (Hq & Hsq & _) _ IH];
      [constructor |].
    apply Forall_cons in Hpre as [Hne Hpre]. constructor; [| now apply IH].
    split; [exact Hq |]. exists (Lt_slot (fst rf) (snd rf)). now split. }
  assert (Hs' : slots w2 !! slot = Some (Lt_slot old f)) by (now rewrite Hs2).
  exists slot. split.
  - unfold RESET_LT, bind at 1. rewrite Hctor.
    unfold lt_reset, bind at 1, load_frames. rewrite Hl2, Hps.
    unfold bind at 1.
    rewrite (find_owner_some w2 old f slot ps1 ps3) by assumption.
    rewrite (is_null_false new Hnew).
    slot_unfold. rewrite (is_null_false slot Hslot), (is_null_false new Hnew), Hs'.
    cbn [resource resource_destroy]. rewrite (is_null_false f Hf).
    reflexivity.
  - exists (ps1 ++ slot :: ps3). wsimpl.
    split; [congruence |]. split; [exact Hnd |].
    apply NoDup_app in Hnd as (_ & Hdisj & Hnd3).
    apply NoDup_cons in Hnd3 as [Hnotin _].
    apply Forall2_app; [| constructor].
    + apply (Forall2_impl_elem (slot_holds w)); [exact H1 |].
      intros q rf Hq. apply slot_holds_frame. wsimpl.
      rewrite lookup_insert_ne, Hs2; [reflexivity |].
      intros <-. apply (Hdisj slot Hq). now left.
    + split; [exact Hslot |]. split; [| exact Hf].
      wsimpl. apply lookup_insert_eq.
    + apply (Forall2_impl_elem (slot_holds w)); [exact H3 |].
      intros q rf Hq. apply slot_holds_frame. wsimpl.
      rewrite lookup_insert_ne, Hs2; [reflexivity |].
      intros <-. contradiction.
Qed.

(** X15: picking a level when one is loaded replaces it in place.  In
    the level picker with the level [old] loaded and tracked, when
    [create_level_from_file] yields a level, [game_update] returns 0, the
    game is running, [level] is the new level, [old] has been released,
    and the Lifetime of the [Game] tracks the new level in the position
    and with the release function of the old one: the list it will tear
    down is no longer than before. *)
Theorem game_update_next_level (game lt picker camera' broadcast' folder
    old f level' : Z) (delta_time : float) (gm : Game)
    (pre post : list (Z * Z)) (w : world) :
  game <> NULL -> float_gt_zero C delta_time = true ->
  games w !! game = Some gm ->
  gm F_state = Some (Game_state_value GAME_STATE_LEVEL_PICKER) ->
  gm F_level_picker = Some picker -> gm F_camera = Some camera' ->
  gm F_level = Some old -> gm F_lt = Some lt ->
  gm F_broadcast = Some broadcast' ->
  external_call (fun r => 0 <= r) (level_picker_update C picker delta_time) ->
  external_call (fun r => 0 <= r)
    (level_picker_enter_camera_event C picker camera') ->
  external_call (fun f => f = folder) (level_picker_selected_level C picker) ->
  external_call (fun l => l = level')
    (create_level_from_file C folder broadcast') ->
  folder <> NULL -> old <> NULL -> level' <> NULL ->
  lt_holds w lt (pre ++ (old, f) :: post) ->
  Forall (fun rf => fst rf <> old) pre ->
  exists w',
    game_update C game delta_time w = Ret 0 w' /\
    Game_member w' game F_state = Some (Game_state_value GAME_STATE_RUNNING) /\
    Game_member w' game F_level = Some level' /\
    lt_holds w' lt (pre ++ (level', f) :: post) /\
    In (EvRelease f old) (trace w').
Proof.
  intros Hgame Hdt Hg Hst Hlp Hcam Hlevel Hlt Hb K1 K2 K3 K4
    Hfolder Hold Hlevel' Hholds Hpre.
  destruct (K1 w) as (r1 & w1 & R1 & P1 & S1 & L1 & G1 & O1 & _).
  destruct (K2 w1) as (r2 & w2 & R2 & P2 & S2 & L2 & G2 & O2 & _).
  destruct (K3 w2) as (fd & w3 & R3 & -> & S3 & L3 & G3 & O3 & _).
  destruct (K4 w3) as (l & w4 & R4 & -> & S4 & L4 & G4 & O4 & t4 & T4).
  assert (Hg1 : games w1 !! game = Some gm) by congruence.
  assert (Hg2 : games w2 !! game = Some gm) by congruence.
  assert (Hg3 : games w3 !! game = Some gm) by congruence.
  assert (Hg4 : games w4 !! game = Some gm) by congruence.
  assert (Hholds3 : lt_holds w3 lt (pre ++ (old, f) :: post)).
  { apply (lt_holds_frame w); [congruence | congruence | exact Hholds]. }
  destruct (lt_reset_replaces lt old f level' pre post
              (let* broadcast := read_game game F_broadcast in
               create_level_from_file C folder broadcast)
              w3 w4 Hholds3 Hold Hlevel' Hpre)
    as (slot & Rreset & Hholds').
  { erewrite bind_read_game; [exact R4 | wsimpl; exact Hg3 | exact Hb]. }
  { exact S4. }
  { exact L4. }
  eexists. split.
  { unfold game_update. rewrite (bind_assert game _ w Hgame).
    unfold bind at 1, assert_true. rewrite Hdt.
    rd. cbn [Game_state_value Game_state_of Z.eqb Pos.eqb].
    rd. rewrite (bind_Ret _ _ _ _ _ R1), (not_negative r1 P1).
    rd. rd. rewrite (bind_Ret _ _ _ _ _ R2), (not_negative r2 P2).
    rd. rewrite (bind_Ret _ _ _ _ _ R3), (is_null_false folder Hfolder).
    rd. rewrite (is_null_false old Hold).
    rewrite !bind_assoc. rd. rewrite bind_assoc. rd.
    rewrite bind_assoc, (bind_Ret _ _ _ _ _ Rreset).
    erewrite bind_write_game; [| wsimpl; exact Hg4].
    rd. rewrite (is_null_false level' Hlevel').
    wr. reflexivity. }
  wsimpl.
  split; [erewrite Game_member_eq; [| wsimpl; apply lookup_insert_eq];
          reflexivity |].
  split; [erewrite Game_member_eq; [| wsimpl; apply lookup_insert_eq];
          reflexivity |].
  split; [eapply lt_holds_frame; [| | exact Hholds']; reflexivity |].
  apply in_or_app. right. now left.
Qed.

(** Looking for the owner among live slots always returns, and what it
    finds holds the resource. *)
Lemma find_owner_returns (w : world) (old : Z) (ps : list Z) :
  forall rs, Forall2 (slot_holds w) ps rs -> old <> NULL ->
  exists o, find_owner ps old w = Ret o w /\
            forall slot, o = Some slot ->
              slot <> NULL /\ exists f, slots w !! slot = Some (Lt_slot old f) /\
                                        f <> NULL.
Proof.
  induction ps as [| p ps IH]; intros rs Hall Hold.
  - exists None. split; [reflexivity | discriminate].
  - apply Forall2_cons_inv_l in Hall as ([r f] & rs' & (Hp & Hs & Hf) & Hall & ->).
    cbn in Hs, Hf. cbn [find_owner]. unfold bind at 1.
    destruct (lt_slot_contains_resource_returns p old _ w Hp Hold Hs)
      as (v & -> & _ & Hv).
    destruct (Z.eqb_spec v 0) as [_ | Hv0].
    + exact (IH rs' Hall Hold).
    + exists (Some p). split; [reflexivity |]. intros slot [= <-].
      apply Hv in Hv0. cbn in Hv0. subst r. eauto.
Qed.

(** Replacing with a constructor that fails gives [NULL]: nothing is
    released and nothing but what the constructor did has changed. *)
Lemma lt_reset_constructor_fails (lt old : Z) (rs : list (Z * Z))
    (constructor : M Z) (w w2 : world) :
  constructor w = Ret NULL w2 -> lt_holds w2 lt rs -> old <> NULL ->
  RESET_LT lt old constructor w = Ret NULL w2.
Proof.
  intros Hctor (ps & Hps & _ & Hall) Hold.
  destruct (find_owner_returns w2 old ps rs Hall Hold) as (o & Hfind & _).
  unfold RESET_LT, bind at 1. rewrite Hctor.
  unfold lt_reset, bind at 1, load_frames. rewrite Hps.
  unfold bind at 1. rewrite Hfind. now destruct o.
Qed.

(** X16: a level that cannot be reloaded ends the game.  While the game
    runs, on the key [r], when [create_level_from_file] fails,
    [game_event] returns -1 with the state set to [GAME_STATE_QUIT] and
    [level] set to [NULL], so that [game_over_check] answers 1. *)
Theorem game_reload_failure (game lt picker broadcast' filename old : Z)
    (gm : Game) (rs : list (Z * Z)) (w : world) :
  game <> NULL -> games w !! game = Some gm ->
  gm F_state = Some (Game_state_value GAME_STATE_RUNNING) ->
  gm F_level_picker = Some picker -> gm F_level = Some old ->
  gm F_lt = Some lt -> gm F_broadcast = Some broadcast' ->
  external_call (fun f => f = filename) (level_picker_selected_level C picker) ->
  external_call (fun _ => True)
    (log_info C ("Reloading the level from '%s'..." +:+ LF) [filename]) ->
  external_call (fun l => l = NULL)
    (create_level_from_file C filename broadcast') ->
  external_call (fun _ => True)
    (log_fail C ("Could not reload level %s" +:+ LF) [filename]) ->
  old <> NULL -> lt_holds w lt rs ->
  exists w',
    game_event C game (Some (SDL_KEYDOWN SDLK_r)) w = Ret (-1) w' /\
    Game_member w' game F_state = Some (Game_state_value GAME_STATE_QUIT) /\
    Game_member w' game F_level = Some NULL /\
    game_over_check game w' = Ret 1 w'.
Proof.
  intros Hgame Hg Hst Hlp Hlevel Hlt Hb K1 K2 K3 K4 Hold Hholds.
  destruct (K1 w) as (fn & w1 & R1 & -> & S1 & L1 & G1 & O1 & _).
  destruct (K2 w1) as ([] & w2 & R2 & _ & S2 & L2 & G2 & O2 & _).
  assert (Hg1 : games w1 !! game = Some gm) by congruence.
  assert (Hg2 : games w2 !! game = Some gm) by congruence.
  assert (Hholds2 : lt_holds w2 lt rs).
  { apply (lt_holds_frame w); [congruence | congruence | exact Hholds]. }
  destruct (K3 w2) as (l & w3 & R3 & -> & S3 & L3 & G3 & _).
  assert (Hholds3 : lt_holds w3 lt rs).
  { apply (lt_holds_frame w2); [exact S3 | exact L3 | exact Hholds2]. }
  assert (R3' : RESET_LT lt old
                  (let* broadcast := read_game game F_broadcast in
                   create_level_from_file C filename broadcast) w2
                = Ret NULL w3).
  { apply (lt_reset_constructor_fails lt old rs); [| exact Hholds3 | exact Hold].
    erewrite bind_read_game; [exact R3 | exact Hg2 | exact Hb]. }
  assert (Hg3 : games w3 !! game = Some gm) by congruence.
  set (gm4 := Game_write F_level NULL gm).
  destruct (K4 (set_games (<[game := gm4]> (games w3)) w3))
    as ([] & w5 & R5 & _ & S5 & L5 & G5 & O5 & _).
  wsimpl.
  assert (Hg5 : games w5 !! game = Some gm4)
    by (rewrite G5; apply lookup_insert_eq).
  eexists. split.
  { unfold game_event. rewrite (bind_assert game _ w Hgame), bind_assert_event.
    rd. cbn [Game_state_value Game_state_of Z.eqb Pos.eqb].
    unfold game_event_running.
    rewrite (bind_assert game _ w Hgame), bind_assert_event. cbv iota.
    rewrite !bind_assoc. rd. rewrite bind_assoc, (bind_Ret _ _ _ _ _ R1).
    rewrite bind_assoc, (bind_Ret _ _ _ _ _ R2).
    rewrite bind_assoc. rd. rewrite bind_assoc. rd.
    rewrite bind_assoc, (bind_Ret _ _ _ _ _ R3').
    rewrite bind_assoc. erewrite bind_write_game; [| exact Hg3].
    fold gm4. rewrite bind_assoc.
    erewrite bind_read_game;
      [| wsimpl; apply lookup_insert_eq | subst gm4; game_field].
    change (is_null NULL) with true. cbv iota.
    rewrite !bind_assoc, (bind_Ret _ _ _ _ _ R5).
    rewrite bind_assoc. erewrite bind_write_game; [| exact Hg5].
    reflexivity. }
  wsimpl.
  split; [erewrite Game_member_eq; [| wsimpl; apply lookup_insert_eq];
          reflexivity |].
  split; [erewrite Game_member_eq; [| wsimpl; apply lookup_insert_eq];
          reflexivity |].
  unfold game_over_check.
  erewrite bind_read_game; [| wsimpl; apply lookup_insert_eq | reflexivity].
  reflexivity.
Qed.

End Game_level_loading.

Lemma external_call_ret {A} (P : A -> Prop) (a : A) :
  P a -> external_call P (ret a).
Proof.
  intros HP w. exists a, w. repeat split; try assumption.
  exists []. now rewrite app_nil_r.
Qed.

Lemma game_update_first_level_witness :
  exists w',
    game_update (example_collaborators 60 111) 100 1
      (World ∅ {[ 1 := [] ]}
         {[ 100 := Game_write F_level NULL
                     (game_example GAME_STATE_LEVEL_PICKER) ]} [] [])
    = Ret 0 w' /\
    Game_member w' 100 F_state = Some (Game_state_value GAME_STATE_RUNNING) /\
    Game_member w' 100 F_level = Some 111 /\
    lt_holds w' 1 ([] ++ [(111, 9)]).
Proof.
  refine (game_update_first_level (example_collaborators 60 111)
            100 1 103 105 101 60 111 1
            (Game_write F_level NULL (game_example GAME_STATE_LEVEL_PICKER))
            []
            (World ∅ {[ 1 := [] ]}
               {[ 100 := Game_write F_level NULL
                           (game_example GAME_STATE_LEVEL_PICKER) ]} [] [])
            _ _ _ _ _ _ _ _ _ _ _ _ _ _ _ _ _ _).
  - discriminate.
  - reflexivity.
  - apply lookup_singleton_eq.
  - reflexivity.
  - reflexivity.
  - reflexivity.
  - reflexivity.
  - reflexivity.
  - reflexivity.
  - apply external_call_ret. reflexivity.
  - apply external_call_ret. reflexivity.
  - apply external_call_ret. reflexivity.
  - apply external_call_ret. reflexivity.
  - discriminate.
  - discriminate.
  - discriminate.
  - exists []. split; [apply lookup_singleton_eq |]. split; constructor.
  - reflexivity.
Defined.

Lemma game_update_next_level_witness :
  exists w',
    game_update (example_collaborators 60 111) 100 1
      (World {[ 3 := Lt_slot 110 9 ]} {[ 1 := [3] ]}
         {[ 100 := game_example GAME_STATE_LEVEL_PICKER ]} [] [])
    = Ret 0 w' /\
    Game_member w' 100 F_state = Some (Game_state_value GAME_STATE_RUNNING) /\
    Game_member w' 100 F_level = Some 111 /\
    lt_holds w' 1 ([] ++ [(111, 9)]) /\
    In (EvRelease 9 110) (trace w').
Proof.
  refine (game_update_next_level (example_collaborators 60 111)
            100 1 103 105 101 60 110 9 111 1
            (game_example GAME_STATE_LEVEL_PICKER) [] []
            (World {[ 3 := Lt_slot 110 9 ]} {[ 1 := [3] ]}
               {[ 100 := game_example GAME_STATE_LEVEL_PICKER ]} [] [])
            _ _ _ _ _ _ _ _ _ _ _ _ _ _ _ _ _ _).
  - discriminate.
  - reflexivity.
  - apply lookup_singleton_eq.
  - reflexivity.
  - reflexivity.
  - reflexivity.
  - reflexivity.
  - reflexivity.
  - reflexivity.
  - apply external_call_ret. reflexivity.
  - apply external_call_ret. reflexivity.
  - apply external_call_ret. reflexivity.
  - apply external_call_ret. reflexivity.
  - discriminate.
  - discriminate.
  - discriminate.
  - exists [3]. split; [apply lookup_singleton_eq |].
    split; [apply NoDup_singleton |].
    constructor; [| constructor].
    split; [discriminate |]. split; [apply lookup_singleton_eq | discriminate].
  - constructor.
Defined.

Lemma game_reload_failure_witness :
  exists w',
    game_event (example_collaborators 60 NULL) 100
      (Some (SDL_KEYDOWN SDLK_r))
      (World {[ 3 := Lt_slot 110 9 ]} {[ 1 := [3] ]}
         {[ 100 := game_example GAME_STATE_RUNNING ]} [] [])
    = Ret (-1) w' /\
    Game_member w' 100 F_state = Some (Game_state_value GAME_STATE_QUIT) /\
    Game_member w' 100 F_level = Some NULL /\
    game_over_check 100 w' = Ret 1 w'.
Proof.
  refine (game_reload_failure (example_collaborators 60 NULL)
            100 1 103 101 60 110
            (game_example GAME_STATE_RUNNING) [(110, 9)]
            (World {[ 3 := Lt_slot 110 9 ]} {[ 1 := [3] ]}
               {[ 100 := game_example GAME_STATE_RUNNING ]} [] [])
            _ _ _ _ _ _ _ _ _ _ _ _ _).
  - discriminate.
  - apply lookup_singleton_eq.
  - reflexivity.
  - reflexivity.
  - reflexivity.
  - reflexivity.
  - reflexivity.
  - apply external_call_ret. reflexivity.
  - apply external_call_ret. exact I.
  - apply external_call_ret. reflexivity.
  - apply external_call_ret. exact I.
  - discriminate.
  - exists [3]. split; [apply lookup_singleton_eq |].
    split; [apply NoDup_singleton |].
    constructor; [| constructor].
    split; [discriminate |]. split; [apply lookup_singleton_eq | discriminate].
Defined.

(** ** The rectangle of the level editor *)

Lemma last_cons_any {A} (a0 a : A) (l : list A) :
  List.last (a :: l) a0 = List.last l a.
Proof.
  destruct l as [| x l]; [reflexivity |].
  change (List.last (x :: l) a0 = List.last (x :: l) a).
  revert x. induction l as [| y l IH]; intros x; [reflexivity |].
  exact (IH y).
Qed.

Lemma bind_assert_proto_rect {Point Color B : Type}
    (p : @proto_rect.ProtoRect Point Color)
    (k : @proto_rect.ProtoRect Point Color -> M B) (w : world) :
  bind (proto_rect.assert_proto_rect (Some p)) k w = k p w.
Proof. reflexivity. Qed.

Lemma bind_ret_l {A B} (a : A) (k : A -> M B) (w : world) :
  bind (ret a) k w = k a w.
Proof. reflexivity. Qed.

Ltac proto_rect_asserts Hcam Hboxes :=
  unfold proto_rect.proto_rect_event; rewrite ?bind_assoc;
  rewrite bind_assert_proto_rect, ?bind_assoc, bind_assert_event,
    ?bind_assoc, (bind_assert _ _ _ Hcam), ?bind_assoc,
    (bind_assert _ _ _ Hboxes), ?bind_assoc.

Ltac proto_rect_inv Hp :=
  refine (conj eq_refl (conj eq_refl (conj _ (conj _ _))));
  cbn [proto_rect.active proto_rect.begin proto_rect.color]; intros;
  first [reflexivity | congruence | (do 2 eexists; reflexivity)].

Section Proto_rect_properties.

Import proto_rect.

Context {Point Rect Color float : Type}.
Variable C : @Proto_rect_collaborators Point Rect Color float.

(** Mouse motions while the rectangle is active move its end, and
    nothing else. *)
Lemma proto_rect_motions (map_screen : Z -> Z -> Point) (camera boxes : Z)
    (moves : list (Z * Z)) :
  camera <> NULL -> boxes <> NULL ->
  (forall x y w, camera_map_screen C camera x y w = Ret (map_screen x y) w) ->
  forall (b e : Point) (col : Color) (rest : list SDL_Event) (w : world),
  proto_rect_events C (Build_ProtoRect true b e col)
    (map (fun m => SDL_MOUSEMOTION (fst m) (snd m)) moves ++ rest)
    camera boxes w
  = proto_rect_events C
      (Build_ProtoRect true b
         (List.last (map (fun m => map_screen (fst m) (snd m)) moves) e) col)
      rest camera boxes w.
Proof.
  intros Hcam Hboxes Hmap.
  induction moves as [| [x y] moves IH]; intros b e col rest w;
    [reflexivity |].
  cbn [map app proto_rect_events fst snd].
  rewrite last_cons_any, <- IH.
  proto_rect_asserts Hcam Hboxes.
  cbn [active begin end_ color].
  rewrite bind_assoc, (bind_Ret _ _ _ _ _ (Hmap x y w)). reflexivity.
Qed.

(** X17: drawing a box with the mouse.  On an inactive rectangle, a left
    button press, any mouse motions and a left button release add to the
    boxes the rectangle that spans from the point of the press to the
    point of the last motion, in the colour of the rectangle, when the
    product of its sides is at least 10.0, and write a line to the log
    instead when it is not; the rectangle is inactive afterwards.  The
    position that comes with the release is not used. *)
Theorem proto_rect_drag (map_screen : Z -> Z -> Point) (p : ProtoRect)
    (camera boxes x0 y0 x y : Z) (moves : list (Z * Z)) (w : world) :
  camera <> NULL -> boxes <> NULL -> active p = false ->
  (forall x y w, camera_map_screen C camera x y w = Ret (map_screen x y) w) ->
  let begin' := map_screen x0 y0 in
  let end' :=
    List.last (map (fun m => map_screen (fst m) (snd m)) moves) begin' in
  let real_rect := rect_from_points C begin' end' in
  let area := float_mul C (rect_w C real_rect) (rect_h C real_rect) in
  proto_rect_events C p
    (SDL_MOUSEBUTTONDOWN SDL_BUTTON_LEFT x0 y0
     :: map (fun m => SDL_MOUSEMOTION (fst m) (snd m)) moves
     ++ [SDL_MOUSEBUTTONUP SDL_BUTTON_LEFT x y])
    camera boxes w
  = ((if float_ge C area (PROTO_AREA_THRESHOLD C)
      then boxes_add_box C boxes real_rect (color p) >> ret tt
      else log_info C
             ("The area is too small %f. Such small box won't be created."
              +:+ LF) [area]) >>
     ret (Build_ProtoRect false begin' end' (color p))) w.
Proof.
  intros Hcam Hboxes Hp Hmap begin' end' real_rect area.
  cbn [proto_rect_events].
  proto_rect_asserts Hcam Hboxes.
  rewrite Hp, bind_assoc, (bind_Ret _ _ _ _ _ (Hmap x0 y0 w)), bind_ret_l.
  cbn [snd].
  rewrite (proto_rect_motions map_screen camera boxes moves Hcam Hboxes Hmap).
  fold begin' end'.
  cbn [proto_rect_events].
  proto_rect_asserts Hcam Hboxes.
  cbn [active begin end_ color]. fold real_rect area.
  rewrite ?bind_assoc. apply bind_ext. intros a w1 _. reflexivity.
Qed.

(** X18: an inactive rectangle is inert.  Rendering it draws nothing and
    returns 0, and an event that is no left button press leaves it as it
    is and returns 0; neither calls the camera, the boxes or the log,
    and the world is as before. *)
Theorem proto_rect_inactive_inert (p : ProtoRect) (e : SDL_Event)
    (camera boxes : Z) (w : world) :
  camera <> NULL -> boxes <> NULL -> active p = false ->
  (forall x y, e <> SDL_MOUSEBUTTONDOWN SDL_BUTTON_LEFT x y) ->
  proto_rect_render C (Some p) camera w = Ret 0 w /\
  proto_rect_event C (Some p) (Some e) camera boxes w = Ret (0, p) w.
Proof.
  intros Hcam Hboxes Hp He. split.
  - unfold proto_rect_render.
    rewrite bind_assert_proto_rect, (bind_assert camera _ w Hcam), Hp.
    reflexivity.
  - proto_rect_asserts Hcam Hboxes. rewrite Hp.
    destruct e as [| | | | [|] x y | |]; try reflexivity.
    now destruct (He x y).
Qed.

(** X19: [proto_rect_event] never reports a failure and never changes
    the colour.  When the camera, the boxes and the log return, it
    returns 0 on every event; the colour is kept; an active rectangle
    keeps its first corner; the rectangle becomes active only on a left
    button press and inactive only on a left button release. *)
Theorem proto_rect_event_invariants (p : ProtoRect) (e : SDL_Event)
    (camera boxes : Z) (w : world) :
  camera <> NULL -> boxes <> NULL ->
  (forall x y, returns (camera_map_screen C camera x y)) ->
  (forall r c, returns (boxes_add_box C boxes r c)) ->
  (forall s a, returns (log_info C s a)) ->
  exists p' w',
    proto_rect_event C (Some p) (Some e) camera boxes w = Ret (0, p') w' /\
    color p' = color p /\
    (active p = true -> begin p' = begin p) /\
    (active p = false -> active p' = true ->
       exists x y, e = SDL_MOUSEBUTTONDOWN SDL_BUTTON_LEFT x y) /\
    (active p = true -> active p' = false ->
       exists x y, e = SDL_MOUSEBUTTONUP SDL_BUTTON_LEFT x y).
Proof.
  intros Hcam Hboxes Kmap Kbox Klog.
  proto_rect_asserts Hcam Hboxes.
  pose (real_rect := rect_from_points C (begin p) (end_ p)).
  pose (area := float_mul C (rect_w C real_rect) (rect_h C real_rect)).
  destruct (Kbox real_rect (color p) w) as (vb & wb & Rb).
  destruct (Klog ("The area is too small %f. Such small box won't be created."
                  +:+ LF) [area] w) as ([] & wl & Rl).
  destruct (active p) eqn:Hp.
  - destruct e as [| | | x y | b x y | [|] x y |];
      try (exists p, w; proto_rect_inv Hp).
    + destruct (Kmap x y w) as (v & w' & R).
      rewrite (bind_Ret _ _ _ _ _ R).
      eexists _, w'. proto_rect_inv Hp.
    + fold real_rect area.
      destruct (float_ge C area (PROTO_AREA_THRESHOLD C)).
      * rewrite bind_assoc, (bind_Ret _ _ _ _ _ Rb).
        eexists _, wb. proto_rect_inv Hp.
      * rewrite (bind_Ret _ _ _ _ _ Rl).
        eexists _, wl. proto_rect_inv Hp.
  - destruct e as [| | | x y | [|] x y | b x y |];
      try (exists p, w; proto_rect_inv Hp).
    destruct (Kmap x y w) as (v & w' & R).
    rewrite (bind_Ret _ _ _ _ _ R).
    eexists _, w'. proto_rect_inv Hp.
Qed.

(** X20: the assertions of proto_rect.c.  [proto_rect_event] aborts when
    its rectangle, its event, its camera or its boxes is [NULL],
    [proto_rect_render] when its rectangle or its camera is, and
    [proto_rect_update] when its rectangle is, each before anything is
    called or written; on a rectangle that is not [NULL],
    [proto_rect_update] returns 0 and changes nothing. *)
Theorem proto_rect_null_aborts (proto_rect : option ProtoRect)
    (event : option SDL_Event) (camera boxes : Z) (delta_time : float)
    (w : world) :
  (proto_rect = None \/ event = None \/ camera = NULL \/ boxes = NULL ->
   proto_rect_event C proto_rect event camera boxes w = Abort w) /\
  (proto_rect = None \/ camera = NULL ->
   proto_rect_render C proto_rect camera w = Abort w) /\
  (proto_rect = None -> proto_rect_update proto_rect delta_time w = Abort w) /\
  (proto_rect <> None ->
   proto_rect_update proto_rect delta_time w = Ret 0 w).
Proof.
  refine (conj _ (conj _ (conj _ _))).
  - intros H. unfold proto_rect_event, bind, assert_proto_rect, assert_event,
      assert.
    destruct proto_rect as [p |]; [| reflexivity].
    destruct event as [e |]; [| reflexivity].
    destruct (is_null camera) eqn:Hc; [reflexivity |].
    destruct (is_null boxes) eqn:Hb; [reflexivity |].
    destruct H as [H | [H | [H | H]]]; try discriminate; subst;
      discriminate.
  - intros H. unfold proto_rect_render, bind, assert_proto_rect, assert.
    destruct proto_rect as [p |]; [| reflexivity].
    destruct (is_null camera) eqn:Hc; [reflexivity |].
    destruct H as [H | H]; [discriminate | subst; discriminate].
  - intros ->. reflexivity.
  - intros H. destruct proto_rect as [p |]; [reflexivity | now destruct H].
Qed.

(** X21: what is drawn while the mouse drags.  After a left button press
    on an inactive rectangle and any mouse motions, the rectangle is
    active, and [proto_rect_render] calls [camera_fill_rect] once, with
    the rectangle from the point of the press to the point of the last
    motion and the colour, and returns -1 when that call returns a
    negative value and 0 otherwise. *)
Theorem proto_rect_render_while_dragging (map_screen : Z -> Z -> Point)
    (p : ProtoRect) (camera boxes x0 y0 : Z) (moves : list (Z * Z))
    (w : world) :
  camera <> NULL -> boxes <> NULL -> active p = false ->
  (forall x y w, camera_map_screen C camera x y w = Ret (map_screen x y) w) ->
  let begin' := map_screen x0 y0 in
  let end' :=
    List.last (map (fun m => map_screen (fst m) (snd m)) moves) begin' in
  let p' := Build_ProtoRect true begin' end' (color p) in
  proto_rect_events C p
    (SDL_MOUSEBUTTONDOWN SDL_BUTTON_LEFT x0 y0
     :: map (fun m => SDL_MOUSEMOTION (fst m) (snd m)) moves)
    camera boxes w
  = Ret p' w /\
  proto_rect_render C (Some p') camera w
  = (let* r := camera_fill_rect C camera (rect_from_points C begin' end')
                 (color p) in
     ret (if r <? 0 then -1 else 0)) w.
Proof.
  intros Hcam Hboxes Hp Hmap begin' end' p'. split.
  - cbn [proto_rect_events].
    proto_rect_asserts Hcam Hboxes.
    rewrite Hp, bind_assoc, (bind_Ret _ _ _ _ _ (Hmap x0 y0 w)), bind_ret_l.
    cbn [snd].
    rewrite <- (app_nil_r (map _ moves)).
    rewrite (proto_rect_motions map_screen camera boxes moves Hcam Hboxes Hmap).
    reflexivity.
  - unfold proto_rect_render.
    rewrite bind_assert_proto_rect, (bind_assert camera _ w Hcam).
    cbn [p' active begin end_ color].
    apply bind_ext. intros r w1 _. now destruct (r <? 0).
Qed.

End Proto_rect_properties.

Lemma proto_rect_drag_witness :
  proto_rect.proto_rect_events proto_rect.example_collaborators
    (proto_rect.Build_ProtoRect false (0, 0) (0, 0) 7)
    [SDL_MOUSEBUTTONDOWN SDL_BUTTON_LEFT 1 1; SDL_MOUSEMOTION 3 4;
     SDL_MOUSEMOTION 6 8; SDL_MOUSEBUTTONUP SDL_BUTTON_LEFT 0 0]
    105 120 (World ∅ ∅ ∅ [] [])
  = Ret (proto_rect.Build_ProtoRect false (1, 1) (6, 8) 7)
      (World ∅ ∅ ∅ [] [EvPrint "box"]).
Proof.
  exact (proto_rect_drag proto_rect.example_collaborators
           (fun x y => (x, y))
           (proto_rect.Build_ProtoRect false (0, 0) (0, 0) 7)
           105 120 1 1 0 0 [(3, 4); (6, 8)] (World ∅ ∅ ∅ [] [])
           ltac:(discriminate) ltac:(discriminate) eq_refl
           (fun _ _ _ => eq_refl)).
Defined.

Lemma proto_rect_inactive_inert_witness :
  proto_rect.proto_rect_render proto_rect.example_collaborators
    (Some (proto_rect.Build_ProtoRect false (0, 0) (0, 0) 7)) 105
    (World ∅ ∅ ∅ [] [])
  = Ret 0 (World ∅ ∅ ∅ [] []) /\
  proto_rect.proto_rect_event proto_rect.example_collaborators
    (Some (proto_rect.Build_ProtoRect false (0, 0) (0, 0) 7))
    (Some (SDL_MOUSEBUTTONUP SDL_BUTTON_LEFT 3 4)) 105 120
    (World ∅ ∅ ∅ [] [])
  = Ret (0, proto_rect.Build_ProtoRect false (0, 0) (0, 0) 7)
      (World ∅ ∅ ∅ [] []).
Proof.
  exact (proto_rect_inactive_inert proto_rect.example_collaborators
           (proto_rect.Build_ProtoRect false (0, 0) (0, 0) 7)
           (SDL_MOUSEBUTTONUP SDL_BUTTON_LEFT 3 4) 105 120
           (World ∅ ∅ ∅ [] [])
           ltac:(discriminate) ltac:(discriminate) eq_refl
           ltac:(discriminate)).
Defined.

Lemma proto_rect_event_invariants_witness :
  exists p' w',
    proto_rect.proto_rect_event proto_rect.example_collaborators
      (Some (proto_rect.Build_ProtoRect true (1, 1) (6, 8) 7))
      (Some (SDL_MOUSEBUTTONUP SDL_BUTTON_LEFT 0 0)) 105 120
      (World ∅ ∅ ∅ [] [])
    = Ret (0, p') w' /\
    proto_rect.color p' = 7 /\
    (true = true -> proto_rect.begin p' = (1, 1)) /\
    (true = false -> proto_rect.active p' = true ->
       exists x y, SDL_MOUSEBUTTONUP SDL_BUTTON_LEFT 0 0
                   = SDL_MOUSEBUTTONDOWN SDL_BUTTON_LEFT x y) /\
    (true = true -> proto_rect.active p' = false ->
       exists x y, SDL_MOUSEBUTTONUP SDL_BUTTON_LEFT 0 0
                   = SDL_MOUSEBUTTONUP SDL_BUTTON_LEFT x y).
Proof.
  refine (proto_rect_event_invariants proto_rect.example_collaborators
            (proto_rect.Build_ProtoRect true (1, 1) (6, 8) 7)
            (SDL_MOUSEBUTTONUP SDL_BUTTON_LEFT 0 0) 105 120
            (World ∅ ∅ ∅ [] []) _ _ _ _ _).
  - discriminate.
  - discriminate.
  - intros x y w. exists (x, y), w. reflexivity.
  - intros r c w. eexists 0, _. reflexivity.
  - intros s a w. eexists tt, _. reflexivity.
Defined.

Lemma proto_rect_null_aborts_witness :
  proto_rect.proto_rect_event proto_rect.example_collaborators
    (Some (proto_rect.Build_ProtoRect true (1, 1) (6, 8) 7))
    (Some (SDL_MOUSEBUTTONUP SDL_BUTTON_LEFT 0 0)) 105 NULL
    (World ∅ ∅ ∅ [] [])
  = Abort (World ∅ ∅ ∅ [] []) /\
  proto_rect.proto_rect_render proto_rect.example_collaborators
    (Some (proto_rect.Build_ProtoRect true (1, 1) (6, 8) 7)) NULL
    (World ∅ ∅ ∅ [] [])
  = Abort (World ∅ ∅ ∅ [] []).
Proof.
  split.
  - exact (proj1 (proto_rect_null_aborts proto_rect.example_collaborators
                    (Some (proto_rect.Build_ProtoRect true (1, 1) (6, 8) 7))
                    (Some (SDL_MOUSEBUTTONUP SDL_BUTTON_LEFT 0 0)) 105 NULL
                    0 (World ∅ ∅ ∅ [] []))
             (or_intror (or_intror (or_intror eq_refl)))).
  - exact (proj1 (proj2
             (proto_rect_null_aborts proto_rect.example_collaborators
                (Some (proto_rect.Build_ProtoRect true (1, 1) (6, 8) 7))
                None NULL 120 0 (World ∅ ∅ ∅ [] [])))
             (or_intror eq_refl)).
Defined.

Lemma proto_rect_render_while_dragging_witness :
  proto_rect.proto_rect_events proto_rect.example_collaborators
    (proto_rect.Build_ProtoRect false (0, 0) (0, 0) 7)
    [SDL_MOUSEBUTTONDOWN SDL_BUTTON_LEFT 1 1; SDL_MOUSEMOTION 3 4;
     SDL_MOUSEMOTION 6 8]
    105 120 (World ∅ ∅ ∅ [] [])
  = Ret (proto_rect.Build_ProtoRect true (1, 1) (6, 8) 7)
      (World ∅ ∅ ∅ [] []) /\
  proto_rect.proto_rect_render proto_rect.example_collaborators
    (Some (proto_rect.Build_ProtoRect true (1, 1) (6, 8) 7)) 105
    (World ∅ ∅ ∅ [] [])
  = Ret 0 (World ∅ ∅ ∅ [] []).
Proof.
  exact (proto_rect_render_while_dragging proto_rect.example_collaborators
           (fun x y => (x, y))
           (proto_rect.Build_ProtoRect false (0, 0) (0, 0) 7)
           105 120 1 1 [(3, 4); (6, 8)] (World ∅ ∅ ∅ [] [])
           ltac:(discriminate) ltac:(discriminate) eq_refl
           (fun _ _ _ => eq_refl)).
Defined.
